(** * Profiling tables of the Sentry front end: a shallow embedding

    The development follows two components of the repository:

    - [static/app/views/profiling/profileDetails/components/profileDetailsTable.tsx]
      (module [ProfileDetailsTable]): the view registry [GROUP_BY_OPTIONS],
      the [quantile] estimator and the aggregate columns built on it, the
      filter / sort / slice stages of the table and the handler that runs
      when another view is selected;
    - [static/app/components/profiling/profileTransactionsTable.tsx]
      (module [ProfileTransactionsTable]): the decoding of the [sort]
      property.

    JavaScript numbers have two models.  Module [Binary64] has them as
    IEEE 754 binary64 values with the arithmetic of [SpecFloat], every
    operation rounded to nearest, ties to even; [quantile64] is the
    estimator over these numbers and the values it returns are stated
    there.  Module [Js] has numbers as exact rationals in canonical form
    ([Qc]), so that [===] on numbers is Leibniz equality, and [quantile]
    is the estimator without rounding; it serves the properties of the
    tables, where numbers are indices, cursors and counts, and the cases
    of the estimator in which no operation rounds.  The two non-numeric
    results an arithmetic expression of the source can produce,
    [undefined] and [NaN], are constructors of [jsval], [undefined] one of
    [jsval64]. *)

From Stdlib Require Import QArith Qcanon Qround Lqa.
From Stdlib Require SpecFloat.
From stdpp Require Import gmap strings list fin_maps sorting.

Local Open Scope Z_scope.

(** ** JavaScript values and built-ins used by the source *)

Module Js.

(** The result of an expression of type [number | undefined]. *)
Inductive jsval : Type :=
  | JNum (x : Qc)
  | JNaN
  | JUndefined.

(** An integer as a number. *)
Definition ofZ (z : Z) : Qc := Q2Qc (inject_Z z).

Definition Qcltb (x y : Qc) : bool :=
  match (x ?= y)%Qc with Lt => true | _ => false end.

Definition Qceqb (x y : Qc) : bool :=
  match (x ?= y)%Qc with Eq => true | _ => false end.

(** [Math.floor]. *)
Definition Math_floor (x : Qc) : Z := Qfloor x.

(** Truncation towards zero, as used by the remainder operator. *)
Definition trunc (x : Qc) : Z :=
  if Qcltb x (ofZ 0) then Qceiling x else Qfloor x.

(** [x % d] for a divisor [d] other than zero: the result takes the sign
    of the dividend, [x - d * trunc (x / d)]. *)
Definition rem (x d : Qc) : Qc := (x - d * ofZ (trunc (x / d)))%Qc.

(** [ToNumber] on the values above: [undefined] becomes [NaN]. *)
Definition mul (v w : jsval) : jsval :=
  match v, w with
  | JNum x, JNum y => JNum (x * y)%Qc
  | _, _ => JNaN
  end.

Definition add (v w : jsval) : jsval :=
  match v, w with
  | JNum x, JNum y => JNum (x + y)%Qc
  | _, _ => JNaN
  end.

(** [a[p]] for an array [a] of numbers and a number [p]: an element when
    [p] is an integer index inside the array, [undefined] otherwise (a
    negative or fractional [p] names a property the array does not have). *)
Definition get (a : list Qc) (p : Qc) : jsval :=
  let i := Qfloor p in
  if Qceqb p (ofZ i) && (0 <=? i) then
    match a !! Z.to_nat i with
    | Some x => JNum x
    | None => JUndefined
    end
  else JUndefined.

Section Arrays.
Context {A : Type}.

(** [Array.prototype.sort(cmp)] orders [x] after [y] when [cmp x y] is
    positive and is stable (ECMAScript 2019); for a consistent comparator
    this determines the result, computed here by a stable insertion
    sort. *)
Fixpoint sort_insert (cmp : A → A → Qc) (x : A) (l : list A) : list A :=
  match l with
  | [] => [x]
  | y :: l' =>
      if Qcltb (ofZ 0) (cmp x y) then y :: sort_insert cmp x l' else x :: l
  end.

Definition sort (cmp : A → A → Qc) (l : list A) : list A :=
  foldr (sort_insert cmp) [] l.

(** [Array.prototype.slice(start, end)]: negative arguments count from
    the end of the array, both are clamped to its bounds. *)
Definition relative_index (len k : Z) : Z :=
  if k <? 0 then Z.max (len + k) 0 else Z.min k len.

Definition slice (start stop : Z) (l : list A) : list A :=
  let len := Z.of_nat (length l) in
  let from := relative_index len start in
  let final := relative_index len stop in
  take (Z.to_nat (final - from)) (drop (Z.to_nat from) l).

(** [Array.prototype.filter]. *)
Definition array_filter (p : A → bool) (l : list A) : list A :=
  List.filter p l.
End Arrays.

(** [String.prototype.startsWith] and [String.prototype.substring] with
    one argument. *)
Definition startsWith (s p : string) : bool := String.prefix p s.

Definition substring_from (k : nat) (s : string) : string :=
  String.substring k (String.length s - k) s.

(** Own property names of [Object.prototype], which every object literal
    inherits. *)
Definition Object_prototype : list string :=
  ["constructor"; "__defineGetter__"; "__defineSetter__"; "hasOwnProperty";
   "__lookupGetter__"; "__lookupSetter__"; "isPrototypeOf";
   "propertyIsEnumerable"; "toString"; "valueOf"; "__proto__";
   "toLocaleString"]%string.

End Js.

(** ** Binary64 numbers

    The numbers of JavaScript as IEEE 754 binary64 values, with the
    arithmetic of [SpecFloat] (rounding to nearest, ties to even). *)

Module Binary64.
Import SpecFloat.

Definition prec : Z := 53.
Definition emax : Z := 1024.

Definition mul : spec_float → spec_float → spec_float := SFmul prec emax.
Definition add : spec_float → spec_float → spec_float := SFadd prec emax.
Definition sub : spec_float → spec_float → spec_float := SFsub prec emax.

(** [===], [<] and [<=] on numbers. *)
Definition eqb : spec_float → spec_float → bool := SFeqb.
Definition ltb : spec_float → spec_float → bool := SFltb.
Definition leb : spec_float → spec_float → bool := SFleb.

(** The values a number can take: a finite one has its mantissa and
    exponent in the binary64 format. *)
Definition valid : spec_float → bool := valid_binary prec emax.

(** [Number.isFinite]. *)
Definition isFinite (x : spec_float) : bool :=
  match x with
  | S754_zero _ | S754_finite _ _ _ => true
  | _ => false
  end.

Definition zero : spec_float := S754_zero false.

(** An integer as a number; exact below 2^53. *)
Definition of_int (z : Z) : spec_float := binary_normalize prec emax z 0 false.

(** The mantissa [q] shifted left by [n] bits. *)
Definition shl (q : positive) (n : nat) : positive := Nat.iter n xO q.

(** The literal of the decimal fraction [num / den]: the binary64 value
    nearest to it. *)
Definition decimal (num den : positive) : spec_float :=
  SFdiv prec emax (S754_finite false num 0) (S754_finite false den 0).

(** The integer a number is, if it is one. *)
Definition to_Z (x : spec_float) : option Z :=
  match x with
  | S754_zero _ => Some 0
  | S754_finite s m e =>
      if 0 <=? e then Some (cond_Zopp s (Zpos m * 2 ^ e))
      else if Zpos m mod 2 ^ (- e) =? 0
           then Some (cond_Zopp s (Zpos m / 2 ^ (- e)))
           else None
  | _ => None
  end.

(** The greatest integer not above a finite number. *)
Definition floorZ (x : spec_float) : option Z :=
  match x with
  | S754_zero _ => Some 0
  | S754_finite s m e =>
      Some (if 0 <=? e then cond_Zopp s (Zpos m * 2 ^ e)
            else cond_Zopp s (Zpos m) / 2 ^ (- e))
  | _ => None
  end.

(** [Math.floor]: an integer, an infinity and [NaN] are returned as they
    are. *)
Definition floor (x : spec_float) : spec_float :=
  match to_Z x, floorZ x with
  | None, Some k => of_int k
  | _, _ => x
  end.

(** [x % 1]: the fractional part with the sign of [x], computed without
    rounding; [NaN] for an infinity or [NaN]. *)
Definition rem_one (x : spec_float) : spec_float :=
  match x with
  | S754_nan | S754_infinity _ => S754_nan
  | S754_zero _ => x
  | S754_finite s m e =>
      if 0 <=? e then S754_zero s
      else binary_normalize prec emax
             (cond_Zopp s (Zpos m mod 2 ^ (- e))) e s
  end.

(** The result of an expression of type [number | undefined]. *)
Inductive jsval64 : Type :=
  | FNum (x : spec_float)
  | FUndefined.

(** [ToNumber]. *)
Definition to_number (v : jsval64) : spec_float :=
  match v with
  | FNum x => x
  | FUndefined => S754_nan
  end.

Definition mul64 (v w : jsval64) : jsval64 :=
  FNum (mul (to_number v) (to_number w)).

Definition add64 (v w : jsval64) : jsval64 :=
  FNum (add (to_number v) (to_number w)).

(** [a[p]] for an array [a] of numbers and a number [p]: the element at
    [p] when [p] is an integer inside the array ([-0] is the index 0),
    [undefined] otherwise. *)
Definition get (a : list spec_float) (p : spec_float) : jsval64 :=
  match to_Z p with
  | Some k =>
      if (0 <=? k) && (k <? Z.of_nat (length a)) then
        match a !! Z.to_nat k with
        | Some x => FNum x
        | None => FUndefined
        end
      else FUndefined
  | None => FUndefined
  end.

(** [Array.prototype.sort(cmp)] for a comparator that returns a number:
    [x] is put after [y] when [cmp x y] is above zero; [NaN] counts as
    zero.  Stable insertion sort, as in [Js.sort]. *)
Fixpoint sort_insert {A : Type} (cmp : A → A → spec_float) (x : A)
    (l : list A) : list A :=
  match l with
  | [] => [x]
  | y :: l' => if ltb zero (cmp x y) then y :: sort_insert cmp x l' else x :: l
  end.

Definition sort {A : Type} (cmp : A → A → spec_float) (l : list A) : list A :=
  foldr (sort_insert cmp) [] l.

End Binary64.

(** ** Arrays as shared objects

    An array is an object: two variables can hold the same array, and
    [sort] changes it in place.  The store maps references to the
    current contents; a computation threads the store and fails only on a
    reference that was never allocated. *)

Module Heap.

(** A reference to an array. *)
Abbreviation ref := nat.

Section Store.
Context {A : Type}.

Definition M (B : Type) : Type :=
  gmap nat (list A) → option (B * gmap nat (list A)).

#[global] Instance M_ret : MRet M := λ B x σ, Some (x, σ).

#[global] Instance M_bind : MBind M := λ B C f m σ,
  match m σ with
  | Some (x, σ') => f x σ'
  | None => None
  end.

(** An array literal or the result of a method that returns a new
    array. *)
Definition alloc (l : list A) : M ref := λ σ,
  let a := fresh (dom σ) in Some (a, <[a:=l]> σ).

Definition read (a : ref) : M (list A) := λ σ,
  match σ !! a with
  | Some l => Some (l, σ)
  | None => None
  end.

Definition write (a : ref) (l : list A) : M unit := λ σ,
  Some ((), <[a:=l]> σ).

(** [a.filter(p)] returns a new array. *)
Definition filter (p : A → bool) (a : ref) : M ref :=
  l ← read a; alloc (Js.array_filter p l).

(** [a.sort(cmp)] sorts [a] in place and returns [a]. *)
Definition sort (cmp : A → A → Qc) (a : ref) : M ref :=
  l ← read a; _ ← write a (Js.sort cmp l); mret a.

(** [a.slice(start, end)] returns a new array. *)
Definition slice (start stop : Z) (a : ref) : M ref :=
  l ← read a; alloc (Js.slice start stop l).
End Store.
End Heap.

(** ** profileDetailsTable.tsx *)

Module ProfileDetailsTable.
Import Js.

(** A cell of a table row, [string | number]. *)
Inductive cell : Type :=
  | CStr (s : string)
  | CNum (x : Qc).

(** [TableDataRow = Partial<Record<TableColumnKey, string | number>>]. *)
Abbreviation TableDataRow := (gmap string cell).

(** Modelled from the spec: the type of the frames that
    [collectProfileFrames] of [../utils] returns is not among the sources.
    The fields are those of the frame record of the data model; the
    weights are numbers, as the casts [as number[]] of the aggregate
    columns assert. *)
Record Frame : Type := {
  symbol : string;
  image : option string;
  file : option string;
  thread : string;
  type : string;
  self_weight : Qc;
  total_weight : Qc
}.

(** The frame as the object the table reads by column key. *)
Definition frame_row (f : Frame) : TableDataRow :=
  let opt (k : string) (o : option string) (m : TableDataRow) : TableDataRow :=
    match o with Some s => <[k:=CStr s]> m | None => m end in
  opt "image" (image f)
    (opt "file" (file f)
       (<["symbol":=CStr (symbol f)]>
          (<["thread":=CStr (thread f)]>
             (<["type":=CStr (type f)]>
                (<["self weight":=CNum (self_weight f)]>
                   (<["total weight":=CNum (total_weight f)]> ∅)))))).

Definition RESULTS_PER_PAGE : Z := 50.

(** [quantile], lines 360-370. *)
Definition quantile (arr : list Qc) (q : Qc) : jsval :=
  let sorted := sort (λ a b, a - b)%Qc arr in
  let position := (q * (ofZ (Z.of_nat (length sorted)) - ofZ 1))%Qc in
  let int := Math_floor position in
  let frac := rem position (ofZ 1) in
  if Qceqb position (ofZ int) then get sorted position
  else
    add (mul (get sorted (ofZ int)) (JNum (ofZ 1 - frac)%Qc))
        (mul (get sorted (ofZ (int + 1))) (JNum frac)).

(** [AggregateColumnConfig], imported from [../utils]: a column key and
    the reduction that computes the column from the rows of a group. *)
Record AggregateColumnConfig : Type := {
  key : string;
  compute : list Frame → jsval
}.

Definition p75AggregateColumn : AggregateColumnConfig :=
  {| key := "p75";
     compute := λ rows, quantile (self_weight <$> rows) (Q2Qc 0.75) |}.

Definition p95AggregateColumn : AggregateColumnConfig :=
  {| key := "p95";
     compute := λ rows, quantile (self_weight <$> rows) (Q2Qc 0.95) |}.

Definition countAggregateColumn : AggregateColumnConfig :=
  {| key := "count";
     compute := λ rows, JNum (ofZ (Z.of_nat (length rows))) |}.

Inductive SortOrder : Type := asc | desc.

Record GroupByOptions : Type := {
  columns : list string;
  option_label : string;
  option_value : string;
  rightAlignedColumns : list string;
  search_key : list string;
  search_placeholder : string;
  sort_defaultSort : string * SortOrder;
  sort_sortableColumns : list string;
  transform : list Frame → list TableDataRow
}.

(** What [GROUP_BY_OPTIONS[k]] evaluates to when it is not [undefined]: a
    view, own property of the object literal, or a member inherited from
    [Object.prototype]. *)
Inductive property : Type :=
  | View (v : GroupByOptions)
  | Inherited (name : string).

Section Registry.
(** The translation of a message and the grouping function [aggregate]
    of [../utils] are imported by the component. *)
Variable t : string → string.
Variable aggregate :
  list Frame → list string → list AggregateColumnConfig → list TableDataRow.

(** The transform of the occurrence view, [data => data.slice(0, 500)]. *)
Definition occurrence_transform {A : Type} (data : list A) : list A :=
  slice 0 500 data.

Definition occurrence : GroupByOptions :=
  {| option_label := t "Slowest Functions";
     option_value := "occurrence";
     columns := ["symbol"; "image"; "file"; "thread"; "type";
                 "self weight"; "total weight"];
     transform := λ data, frame_row <$> occurrence_transform data;
     search_key := ["symbol"];
     search_placeholder := t "Search for frames";
     sort_sortableColumns := ["self weight"; "total weight"];
     sort_defaultSort := ("self weight", desc);
     rightAlignedColumns := ["self weight"; "total weight"] |}.

Definition by_symbol : GroupByOptions :=
  {| option_label := t "Group by Symbol";
     option_value := "symbol";
     columns := ["symbol"; "type"; "image"; "p75"; "p95"; "count"];
     search_key := ["symbol"];
     search_placeholder := t "Search for frames";
     transform := λ data,
       aggregate data ["symbol"; "type"; "image"]
         [p75AggregateColumn; p95AggregateColumn; countAggregateColumn];
     sort_sortableColumns := ["p75"; "p95"; "count"];
     sort_defaultSort := ("p75", desc);
     rightAlignedColumns := ["p75"; "p95"; "count"] |}.

Definition by_package : GroupByOptions :=
  {| option_label := t "Group by Package";
     option_value := "package";
     columns := ["image"; "type"; "p75"; "p95"; "count"];
     search_key := ["image"];
     search_placeholder := t "Search for packages";
     transform := λ data,
       aggregate data ["type"; "image"]
         [p75AggregateColumn; p95AggregateColumn; countAggregateColumn];
     sort_sortableColumns := ["p75"; "p95"; "count"];
     sort_defaultSort := ("p75", desc);
     rightAlignedColumns := ["p75"; "p95"; "count"] |}.

Definition by_file : GroupByOptions :=
  {| option_label := t "Group by File";
     option_value := "file";
     columns := ["file"; "type"; "image"; "p75"; "p95"; "count"];
     search_key := ["file"];
     search_placeholder := t "Search for files";
     transform := λ data,
       aggregate data ["type"; "image"; "file"]
         [p75AggregateColumn; p95AggregateColumn; countAggregateColumn];
     sort_sortableColumns := ["p75"; "p95"; "count"];
     sort_defaultSort := ("p75", desc);
     rightAlignedColumns := ["p75"; "p95"; "count"] |}.

(** The own properties of the object literal [GROUP_BY_OPTIONS]. *)
Definition GROUP_BY_OPTIONS : gmap string GroupByOptions :=
  <["occurrence":=occurrence]>
    (<["symbol":=by_symbol]>
       (<["package":=by_package]> (<["file":=by_file]> ∅))).

(** [GROUP_BY_OPTIONS[k]]; [None] is [undefined]. *)
Definition GROUP_BY_OPTIONS_get (k : string) : option property :=
  match GROUP_BY_OPTIONS !! k with
  | Some v => Some (View v)
  | None =>
      if bool_decide (k ∈ Object_prototype) then Some (Inherited k)
      else None
  end.

(** Line 51: [GROUP_BY_OPTIONS[groupByViewKey] ?? GROUP_BY_OPTIONS.occurrence]. *)
Definition groupByView (groupByViewKey : string) : property :=
  match GROUP_BY_OPTIONS_get groupByViewKey with
  | Some p => p
  | None => View occurrence
  end.
End Registry.

(** *** The component body, lines 118-130 *)

(** Line 130, on the contents of [sortedData]; [cursor] is the number
    read from the page cursor on line 53. *)
Definition page {A : Type} (sortedData : list A) (cursor : Z) : list A :=
  slice cursor (cursor + RESULTS_PER_PAGE) sortedData.

Section Stages.
(** [filterPredicate] and [sortCompareFn] are returned by the hooks
    [useColumnFilters] and [useSortableColumns]. *)
Variable filterPredicate : TableDataRow → bool.
Variable sortCompareFn : TableDataRow → TableDataRow → Qc.

Definition filteredData (filteredDataBySearch : Heap.ref)
  : Heap.M (A:=TableDataRow) Heap.ref :=
  Heap.filter filterPredicate filteredDataBySearch.

Definition sortedData (filteredData : Heap.ref)
  : Heap.M (A:=TableDataRow) Heap.ref :=
  Heap.sort sortCompareFn filteredData.

Definition data (sortedData : Heap.ref) (cursor : Z)
  : Heap.M (A:=TableDataRow) Heap.ref :=
  Heap.slice cursor (cursor + RESULTS_PER_PAGE) sortedData.

(** One pass over the three stages; the result names the arrays held by
    [filteredData], [sortedData] and [data]. *)
Definition stages (filteredDataBySearch : Heap.ref) (cursor : Z)
  : Heap.M (A:=TableDataRow) (Heap.ref * Heap.ref * Heap.ref) :=
  f ← filteredData filteredDataBySearch;
  s ← sortedData f;
  d ← data s cursor;
  mret (f, s, d).
End Stages.

(** *** The state kept in the query string *)

(** A value of [location.query]. *)
Inductive qsval : Type :=
  | QStr (s : string)
  | QList (l : list string).

(** Modelled from the spec: the hook [useQuerystringState] of
    [../hooks/useQuerystringState] is not among the sources.  The state is
    a flat set of named parameters; the hook reads the parameter [key],
    an absent one standing for the initial state, and its setter writes
    that parameter, [undefined] removing it. *)
Definition useQuerystringState (key : string) (query : gmap string qsval)
  : option qsval := query !! key.

Definition setQuerystringState (key : string) (next : option qsval)
    (query : gmap string qsval) : gmap string qsval :=
  match next with
  | Some v => <[key:=v]> query
  | None => delete key query
  end.

Definition setGroupByView := setQuerystringState "detailView".
Definition setSearchQuery := setQuerystringState "query".
Definition setPaginationCursor := setQuerystringState "cursor".
Definition setTypeFilter := setQuerystringState "type".
Definition setImageFilter := setQuerystringState "image".

(** [onChange] of the view selector, lines 142-146. *)
Definition onChange (option_value : string) (query : gmap string qsval)
  : gmap string qsval :=
  setGroupByView (Some (QStr option_value))
    (setPaginationCursor None (setSearchQuery (Some (QStr "")) query)).

(** The state a view starts from: no search, no column filter, no
    requested sort. *)
Definition view_defaults (query : gmap string qsval) : Prop :=
  query !! "query" = Some (QStr "") ∧ query !! "type" = None ∧
  query !! "image" = None ∧ query !! "functionsSort" = None.

(** *** Column filters *)

(** Modelled from the spec: the hook [useColumnFilters] of
    [../hooks/useColumnFilters] is not among the sources.  A row passes
    iff, for every filterable column with a non-empty active selection,
    the value of the row in that column is in the selection; a column
    with an empty or unset selection imposes no constraint. *)
Definition column_passes (filters : gmap string (list string))
    (row : TableDataRow) (column : string) : bool :=
  match filters !! column with
  | None | Some [] => true
  | Some selection =>
      match row !! column with
      | Some (CStr v) => bool_decide (v ∈ selection)
      | _ => false
      end
  end.

Definition filterPredicate (columns : list string)
    (filters : gmap string (list string)) (row : TableDataRow) : bool :=
  forallb (column_passes filters row) columns.

(** Lines 84-90 and 118-121 on the contents of the arrays: the filterable
    columns are [type] and [image]. *)
Definition filterable : list string := ["type"; "image"].

Definition filtered_rows (filters : gmap string (list string))
    (filteredDataBySearch : list TableDataRow) : list TableDataRow :=
  array_filter (filterPredicate filterable filters) filteredDataBySearch.

(** *** Searching, lines 102-109 *)

(** [handleSearch] as far as the query string goes; the debounced call
    changes the component state [filteredDataBySearch], not the query. *)
Definition handleSearch (searchString : string) (query : gmap string qsval)
  : gmap string qsval :=
  setPaginationCursor None (setSearchQuery (Some (QStr searchString)) query).

(** *** The labels of the filter selectors, lines 158-164 and 175-181 *)

(** [!v] for a value of the query string. *)
Definition falsy (v : option qsval) : bool :=
  match v with
  | None => true
  | Some (QStr s) => String.eqb s ""
  | Some (QList _) => false
  end.

(** [triggerLabel]: [t('All')] or [undefined] ([None]).  [values] are the
    values the selector offers, [columnFilters.type.values]. *)
Definition triggerLabel (t : string → string) (filter : option qsval)
    (values : list string) : option string :=
  if falsy filter
     || match filter with
        | Some (QList l) => Nat.eqb (length l) (length values)
        | _ => false
        end
  then Some (t "All") else None.

(** *** Columns and cells, lines 249-358 *)

Definition tableColumnKey : list string :=
  ["symbol"; "image"; "file"; "thread"; "type"; "self weight";
   "total weight"; "p75"; "p95"; "count"].

Record TableColumn : Type := {
  column_key : string;
  column_name : string;
  column_width : Z
}.

(** What a cell shows, and the container it is put in. *)
Inductive CellContent : Type :=
  | Formatted (value : option cell)
  | Value (value : option cell)
  | Text (s : string)
  | FlamechartLink (tid : option cell) (value : option cell).

Inductive CellElement : Type :=
  | NumberContainer (content : CellContent)
  | Container (content : CellContent).

Section Columns.
Variable t : string → string.
Variable COL_WIDTH_UNDEFINED : Z.

Definition COLUMNS : gmap string TableColumn :=
  list_to_map
    [("symbol", {| column_key := "symbol"; column_name := t "Symbol";
                   column_width := COL_WIDTH_UNDEFINED |});
     ("image", {| column_key := "image"; column_name := t "Package";
                  column_width := COL_WIDTH_UNDEFINED |});
     ("file", {| column_key := "file"; column_name := t "File";
                 column_width := COL_WIDTH_UNDEFINED |});
     ("thread", {| column_key := "thread"; column_name := t "Thread";
                   column_width := COL_WIDTH_UNDEFINED |});
     ("type", {| column_key := "type"; column_name := t "Type";
                 column_width := COL_WIDTH_UNDEFINED |});
     ("self weight", {| column_key := "self weight";
                        column_name := t "Self Weight";
                        column_width := COL_WIDTH_UNDEFINED |});
     ("total weight", {| column_key := "total weight";
                         column_name := t "Total Weight";
                         column_width := COL_WIDTH_UNDEFINED |});
     ("p75", {| column_key := "p75"; column_name := t "P75(Self)";
                column_width := COL_WIDTH_UNDEFINED |});
     ("p95", {| column_key := "p95"; column_name := t "P95(Self)";
                column_width := COL_WIDTH_UNDEFINED |});
     ("count", {| column_key := "count"; column_name := t "Count";
                  column_width := COL_WIDTH_UNDEFINED |})].

(** Line 196: [groupByView.columns.map(key => COLUMNS[key])]; [None] is
    [undefined]. *)
Definition columnOrder (view : GroupByOptions) : list (option TableColumn) :=
  (λ key, COLUMNS !! key) <$> columns view.

(** Lines 202-207: the columns handed to the table head as right aligned
    and as sortable are both built from [rightAlignedColumns]. *)
Definition head_rightAlignedColumns (view : GroupByOptions) : gset string :=
  list_to_set (rightAlignedColumns view).

Definition head_sortableColumns (view : GroupByOptions) : gset string :=
  list_to_set (rightAlignedColumns view).

(** [ProfilingFunctionsTableCell], lines 249-285.  The link of a thread
    cell is built from the route parameters and [dataRow.thread]. *)
Definition ProfilingFunctionsTableCell (column_key : string)
    (dataRow : TableDataRow) : CellElement :=
  let value := dataRow !! column_key in
  if bool_decide (column_key ∈ ["p75"; "p95"; "self weight"; "total weight"])
  then NumberContainer (Formatted value)
  else if String.eqb column_key "count" then NumberContainer (Value value)
  else if String.eqb column_key "image" then
    Container (match value with
               | Some v => Value (Some v)
               | None => Text (t "Unknown")
               end)
  else if String.eqb column_key "thread" then
    Container (FlamechartLink (dataRow !! "thread") value)
  else Container (Value value).
End Columns.

Definition is_NumberContainer (e : CellElement) : bool :=
  match e with
  | NumberContainer _ => true
  | Container _ => false
  end.

(** Line 37: the view key read from the query string, [occurrence] when
    the parameter is absent.  As a property key an array stands for its
    elements joined by commas. *)
Definition groupByViewKey (query : gmap string qsval) : string :=
  match useQuerystringState "detailView" query with
  | None => "occurrence"
  | Some (QStr s) => s
  | Some (QList l) => String.concat "," l
  end.

(** *** [quantile] on binary64 numbers *)

(** [quantile], lines 360-370, with the arithmetic of the source: every
    operation is the binary64 operation. *)
Definition quantile64 (arr : list SpecFloat.spec_float)
    (q : SpecFloat.spec_float) : Binary64.jsval64 :=
  let sorted := Binary64.sort (λ a b, Binary64.sub a b) arr in
  let position :=
    Binary64.mul q
      (Binary64.sub (Binary64.of_int (Z.of_nat (length sorted)))
         (Binary64.of_int 1)) in
  let int := Binary64.floor position in
  let frac := Binary64.rem_one position in
  if Binary64.eqb position int then Binary64.get sorted position
  else
    Binary64.add64
      (Binary64.mul64 (Binary64.get sorted int)
         (Binary64.FNum (Binary64.sub (Binary64.of_int 1) frac)))
      (Binary64.mul64
         (Binary64.get sorted (Binary64.add int (Binary64.of_int 1)))
         (Binary64.FNum frac)).

End ProfileDetailsTable.

(** ** profileTransactionsTable.tsx *)

Module ProfileTransactionsTable.
Import Js.

Inductive SortOrder : Type := asc | desc.

(** Lines 129-139. *)
Definition SORTABLE_COLUMNS : gset string :=
  list_to_set ["project"; "transaction"; "count()"; "p50()"; "p75()";
               "p90()"; "p95()"; "p99()"; "last_seen()"].

(** Modelled from the spec: [decodeScalar] of [sentry/utils/queryString]
    is not among the sources.  An empty or absent parameter means the
    default; the property [sort] is a string. *)
Definition decodeScalar (value fallback : string) : string :=
  if String.eqb value "" then fallback else value.

(** Lines 35-52. *)
Definition sort (props_sort : string) : string * SortOrder :=
  let column := decodeScalar props_sort "-count()" in
  let order := asc in
  let '(column, order) :=
    if startsWith column "-" then (substring_from 1 column, desc)
    else (column, order) in
  let column :=
    if bool_decide (column ∈ SORTABLE_COLUMNS) then column else "count()" in
  (column, order).

(** The default of the view, the decoding of an absent request. *)
Definition defaultSort : string * SortOrder := sort "".

(** The column a request names. *)
Definition requested_column (props_sort : string) : string :=
  let column := decodeScalar props_sort "-count()" in
  if startsWith column "-" then substring_from 1 column else column.

(** *** The link of a column head, lines 85-97 *)

Definition SortOrder_eqb (a b : SortOrder) : bool :=
  match a, b with
  | asc, asc | desc, desc => true
  | _, _ => false
  end.

(** The value written to the parameter [sort]. *)
Definition sort_parameter (sort : string * SortOrder) (column : string)
  : string :=
  let dir := desc in
  let dir :=
    if String.eqb column sort.1 && SortOrder_eqb sort.2 dir then asc
    else dir in
  ((if SortOrder_eqb dir desc then "-" else "") ++ column)%string.

(** [location]: the query and the fields the link leaves alone. *)
Record Location (Rest : Type) : Type := {
  location_rest : Rest;
  location_query : gmap string ProfileDetailsTable.qsval
}.
Arguments location_rest {Rest} _.
Arguments location_query {Rest} _.

Definition generateSortLink {Rest : Type} (location : Location Rest)
    (sort : string * SortOrder) (column : string) : Location Rest :=
  {| location_rest := location_rest location;
     location_query :=
       <["sort":=ProfileDetailsTable.QStr (sort_parameter sort column)]>
         (location_query location) |}.

(** *** The rows, lines 54-83 *)

Record Durations : Type := {
  p50 : Qc; p75 : Qc; p90 : Qc; p95 : Qc; p99 : Qc
}.

(** The fields of [ProfileTransaction] and of a project that the
    component reads. *)
Record ProfileTransaction : Type := {
  name : string;
  project_id : string;
  profiles_count : Qc;
  duration_ms : Durations;
  last_profile_at : string
}.

Record Project : Type := {
  id : string;
  slug : string
}.

Section Rows.
(** The route of a profile summary, [generateProfileSummaryRouteWithQuery]
    of [sentry/utils/profiling/routes], applied to the query, the slug of
    the organization, the slug of the project and the transaction. *)
Variables Query Route : Type.
Variable generateProfileSummaryRouteWithQuery :
  Query → string → string → string → Route.

Inductive TransactionCell : Type :=
  | TransactionLink (to : Route) (text : string)
  | TransactionName (text : string).

Record TableDataRow : Type := {
  row_transactionName : string;
  row_transaction : TransactionCell;
  row_count : Qc;
  row_project : option Project;
  row_p50 : Qc;
  row_p75 : Qc;
  row_p90 : Qc;
  row_p95 : Qc;
  row_p99 : Qc;
  row_last_seen : string
}.

Definition transaction_row (query : Query) (organization_slug : string)
    (projects : list Project) (transaction : ProfileTransaction)
  : TableDataRow :=
  let project :=
    List.find (λ proj, String.eqb (id proj) (project_id transaction))
      projects in
  {| row_transactionName := name transaction;
     row_transaction :=
       match project with
       | Some project =>
           TransactionLink
             (generateProfileSummaryRouteWithQuery query organization_slug
                (slug project) (name transaction))
             (name transaction)
       | None => TransactionName (name transaction)
       end;
     row_count := profiles_count transaction;
     row_project := project;
     row_p50 := p50 (duration_ms transaction);
     row_p75 := p75 (duration_ms transaction);
     row_p90 := p90 (duration_ms transaction);
     row_p95 := p95 (duration_ms transaction);
     row_p99 := p99 (duration_ms transaction);
     row_last_seen := last_profile_at transaction |}.

Definition transactions (query : Query) (organization_slug : string)
    (projects : list Project) (props_transactions : list ProfileTransaction)
  : list TableDataRow :=
  transaction_row query organization_slug projects <$> props_transactions.

(** The element a cell is rendered as, with the value it shows;
    [Container_value key] stands for [<Container>{dataRow[key]}</Container>]. *)
Inductive CellElement : Type :=
  | Container_na
  | Container_ProjectBadge (project : Project)
  | NumberContainer_Count (value : Qc)
  | NumberContainer_PerformanceDuration (milliseconds : Qc)
  | Container_DateTime (date : string)
  | Container_value (key : string).

(** [ProfilingTransactionsTableCell], lines 164-207. *)
Definition ProfilingTransactionsTableCell (column_key : string)
    (dataRow : TableDataRow) : CellElement :=
  if String.eqb column_key "project" then
    match row_project dataRow with
    | None => Container_na
    | Some project => Container_ProjectBadge project
    end
  else if String.eqb column_key "count()" then
    NumberContainer_Count (row_count dataRow)
  else if String.eqb column_key "p50()" then
    NumberContainer_PerformanceDuration (row_p50 dataRow)
  else if String.eqb column_key "p75()" then
    NumberContainer_PerformanceDuration (row_p75 dataRow)
  else if String.eqb column_key "p90()" then
    NumberContainer_PerformanceDuration (row_p90 dataRow)
  else if String.eqb column_key "p95()" then
    NumberContainer_PerformanceDuration (row_p95 dataRow)
  else if String.eqb column_key "p99()" then
    NumberContainer_PerformanceDuration (row_p99 dataRow)
  else if String.eqb column_key "last_seen()" then
    Container_DateTime (row_last_seen dataRow)
  else Container_value column_key.

Definition is_NumberContainer (e : CellElement) : bool :=
  match e with
  | NumberContainer_Count _ | NumberContainer_PerformanceDuration _ => true
  | _ => false
  end.
End Rows.

(** *** Columns and cells, lines 120-127 and 164-279 *)

Definition RIGHT_ALIGNED_COLUMNS : gset string :=
  list_to_set ["count()"; "p50()"; "p75()"; "p90()"; "p95()"; "p99()"].

Definition COLUMN_ORDER : list string :=
  ["transaction"; "project"; "last_seen()"; "p75()"; "p95()"; "count()"].

(** The keys of [COLUMNS], each defined with itself as [key]. *)
Definition COLUMNS_keys : list string :=
  ["transaction"; "count()"; "project"; "p50()"; "p75()"; "p90()"; "p95()";
   "p99()"; "last_seen()"].

End ProfileTransactionsTable.

(** ** The tags and screenshots of an event ([unnamed/part_000]) *)

Module EventTagsAndScreenshots.

Definition SCREENSHOT_NAMES : list string :=
  ["screenshot.jpg"; "screenshot.png"; "screenshot-1.jpg";
   "screenshot-1.png"; "screenshot-2.jpg"; "screenshot-2.png"].

(** An attachment, by the two fields the component reads. *)
Record Attachment : Type := {
  attachment_id : string;
  attachment_name : string
}.

(** The properties of the component.  [event_tags] is [event.tags],
    [None] when the event has none; [contexts_empty] is
    [objectIsEmpty(event.contexts)]. *)
Record Props : Type := {
  event_tags : option (list (string * string));
  contexts_empty : bool;
  attachments : list Attachment;
  isShare : bool;
  hasContext : bool
}.

(** The title of the screenshot section. *)
Inductive Title : Type :=
  | CurrentOfTotal (current total : nat)
  | Screenshot_title.

(** The screenshot section: its title, the screenshot handed to
    [Screenshot] ([None] is [undefined]) and, when they are rendered, the
    icons with their index, the name they view and whether they are in
    focus. *)
Record ScreenshotSection : Type := {
  title : Title;
  screenshot : option Attachment;
  icons : option (list (nat * string * bool))
}.

(** What the component renders when it does not return [null]. *)
Record Rendered : Type := {
  wrapper_showScreenshot : bool;
  wrapper_showTags : bool;
  screenshot_section : option ScreenshotSection;
  vertical_divider : bool;
  tag_wrapper_hasEventContext : bool;
  tags_highlight : bool;
  tags_list : bool
}.

(** Line 55. *)
Definition screenshots (props : Props) : list Attachment :=
  List.filter
    (λ a, bool_decide (attachment_name a ∈ SCREENSHOT_NAMES))
    (attachments props).

(** Line 53: [const {tags = []} = event]. *)
Definition tags (props : Props) : list (string * string) :=
  default [] (event_tags props).

(** [!!l.length]. *)
Definition nonempty {A : Type} (l : list A) : bool :=
  negb (Nat.eqb (length l) 0).

(** Lines 63-67. *)
Definition showScreenshot (props : Props) : bool :=
  negb (isShare props) && nonempty (screenshots props).

Definition hasEventContext (props : Props) : bool :=
  hasContext props && negb (contexts_empty props).

Definition showTags (props : Props) : bool :=
  nonempty (tags props) || hasContext props.

(** Lines 43-184; [screenshotInFocus] is the state of the component,
    initially 0. *)
Definition EventTagsAndScreenshots (props : Props) (screenshotInFocus : nat)
  : option Rendered :=
  let tags := tags props in
  let screenshots := screenshots props in
  if negb (nonempty tags) && negb (hasContext props)
     && (isShare props || negb (nonempty screenshots))
  then None
  else
    let showScreenshot := showScreenshot props in
    let screenshot := screenshots !! screenshotInFocus in
    let hasEventContext := hasEventContext props in
    let showTags := showTags props in
    Some
      {| wrapper_showScreenshot := showScreenshot;
         wrapper_showTags := showTags;
         screenshot_section :=
           if showScreenshot then
             Some
               {| title :=
                    if Nat.ltb 1 (length screenshots)
                    then CurrentOfTotal (screenshotInFocus + 1)
                           (length screenshots)
                    else Screenshot_title;
                  screenshot := screenshot;
                  icons :=
                    if Nat.ltb 1 (length screenshots) then
                      Some (imap (λ index s,
                                    (index, attachment_name s,
                                     Nat.eqb screenshotInFocus index))
                                 screenshots)
                    else None |}
           else None;
         vertical_divider := showScreenshot && (showTags || hasEventContext);
         tag_wrapper_hasEventContext := hasEventContext;
         tags_highlight := hasEventContext;
         tags_list := showTags |}.

(** The wrapper lays its children out in three columns when it is given
    both flags, lines 194-206. *)
Definition three_columns (r : Rendered) : bool :=
  wrapper_showScreenshot r && wrapper_showTags r.

End EventTagsAndScreenshots.

(** ** Contract of the estimator *)

Module Contract.
Import SpecFloat.

(** The linearly interpolated order statistic, in the words of the
    contract of the estimator and with the arithmetic of binary64: sort
    the sequence ascending (no element exceeds its successor, [a]
    exceeding [b] when [a - b] is above zero), compute
    [position = q * (n - 1)]; if [position] is an integer the statistic is
    that element, otherwise it interpolates between the elements at
    [floor position] and [floor position + 1], weighted by the fractional
    part.  The product [q * (n - 1)], the two weighted elements and their
    sum are each rounded to the nearest binary64 number. *)
Definition interpolated_order_statistic64 (arr : list spec_float)
    (q v : spec_float) : Prop :=
  ∃ sorted : list spec_float,
    Sorted (λ a b, Binary64.ltb Binary64.zero (Binary64.sub a b) = false)
      sorted ∧
    sorted ≡ₚ arr ∧
    let position :=
      Binary64.mul q (Binary64.of_int (Z.of_nat (length arr) - 1)) in
    let frac := Binary64.rem_one position in
    ∃ lo : Z,
      Binary64.floorZ position = Some lo ∧ 0 ≤ lo ∧
      (is_Some (Binary64.to_Z position) → sorted !! Z.to_nat lo = Some v) ∧
      (Binary64.to_Z position = None →
       ∃ x y, sorted !! Z.to_nat lo = Some x ∧
              sorted !! Z.to_nat (lo + 1) = Some y ∧
              v = Binary64.add
                    (Binary64.mul x (Binary64.sub (Binary64.of_int 1) frac))
                    (Binary64.mul y frac)).

End Contract.

(** ** Sample data *)

Module Samples.
Import Js ProfileDetailsTable.

(** Two collected frames. *)
Definition frame_a : Frame :=
  {| symbol := "main"; image := Some "app"; file := Some "main.swift";
     thread := "0"; type := "application";
     self_weight := ofZ 10; total_weight := ofZ 40 |}.

Definition frame_b : Frame :=
  {| symbol := "objc_msgSend"; image := None; file := None;
     thread := "0"; type := "system";
     self_weight := ofZ 30; total_weight := ofZ 30 |}.

(** A comparator as [useSortableColumns] builds it for a numeric column
    sorted descending, and rows that carry only that column. *)
Definition count_of (row : TableDataRow) : Qc :=
  match row !! "count" with
  | Some (CNum x) => x
  | _ => ofZ 0
  end.

Definition by_count_desc (a b : TableDataRow) : Qc :=
  (count_of b - count_of a)%Qc.

Definition counted (z : Z) : TableDataRow := {["count" := CNum (ofZ z)]}.

Definition search_results : gmap nat (list TableDataRow) :=
  {[0%nat := [counted 1; counted 3; counted 2]]}.

(** The parameters of a table grouped by symbol, searched for [main],
    filtered to the type [system] and sorted by [count] descending. *)
Definition symbol_view_query : gmap string qsval :=
  <["detailView":=QStr "symbol"]>
    (<["query":=QStr "main"]>
       (<["type":=QList ["system"]]>
          (<["functionsSort":=QStr "-count"]> ∅))).

(** A row of a system frame. *)
Definition system_row : TableDataRow :=
  <["type":=CStr "system"]> (<["image":=CStr "libdyld.dylib"]> ∅).

(** The numbers 10, 20, 30 and 40. *)
Definition ten_to_forty : list SpecFloat.spec_float :=
  [Binary64.of_int 10; Binary64.of_int 20; Binary64.of_int 30;
   Binary64.of_int 40].

End Samples.

(** ** Sample data of the transactions table and of an event *)

Module MoreSamples.
Import ProfileTransactionsTable.

Definition backend : Project := {| id := "1"; slug := "backend" |}.

Definition checkout : ProfileTransaction :=
  {| name := "/checkout"; project_id := "1"; profiles_count := Js.ofZ 12;
     duration_ms :=
       {| p50 := Js.ofZ 10; p75 := Js.ofZ 20; p90 := Js.ofZ 30;
          p95 := Js.ofZ 40; p99 := Js.ofZ 50 |};
     last_profile_at := "2022-10-01T00:00:00" |}.

(** A route, written as a path. *)
Definition summary_route (query : unit) (orgSlug projectSlug transaction : string)
  : string :=
  ("/" ++ orgSlug ++ "/" ++ projectSlug ++ "/" ++ transaction)%string.

(** An event with one tag and two screenshots among its attachments. *)
Definition crash_props : EventTagsAndScreenshots.Props :=
  {| EventTagsAndScreenshots.event_tags := Some [("os", "iOS")];
     EventTagsAndScreenshots.contexts_empty := true;
     EventTagsAndScreenshots.attachments :=
       [{| EventTagsAndScreenshots.attachment_id := "1";
           EventTagsAndScreenshots.attachment_name := "screenshot.png" |};
        {| EventTagsAndScreenshots.attachment_id := "2";
           EventTagsAndScreenshots.attachment_name := "log.txt" |};
        {| EventTagsAndScreenshots.attachment_id := "3";
           EventTagsAndScreenshots.attachment_name := "screenshot-1.png" |}];
     EventTagsAndScreenshots.isShare := false;
     EventTagsAndScreenshots.hasContext := false |}.

End MoreSamples.

(** * Properties *)

Import Js ProfileDetailsTable Contract Samples.

#[local] Instance Qcle_trans_inst : Transitive Qcle.
Proof. intros x y z. apply Qcle_trans. Qed.

#[local] Instance Qcle_antisymm_inst : AntiSymm (=) Qcle.
Proof. intros x y. apply Qcle_antisym. Qed.

(** ** Numbers *)

Section NumberFacts.

Lemma this_ofZ (z : Z) : (this (ofZ z) == inject_Z z)%Q.
Proof. unfold ofZ. simpl. apply Qred_correct. Qed.



Lemma Qceqb_true (x y : Qc) : Qceqb x y = true ↔ x = y.
Proof.
  unfold Qceqb. rewrite Qceq_alt.
  destruct (x ?= y)%Qc; split; congruence.
Qed.









End NumberFacts.

(** ** Arrays *)

Section ArrayFacts.
Context {A : Type}.
Implicit Types (l : list A) (cmp : A → A → Qc).

Lemma sort_insert_perm cmp x l : sort_insert cmp x l ≡ₚ x :: l.
Proof.
  induction l as [|y l IH]; simpl; [done|].
  destruct (Qcltb _ _); [|done].
  rewrite IH. apply Permutation_swap.
Qed.

Lemma sort_perm cmp l : sort cmp l ≡ₚ l.
Proof.
  induction l as [|x l IH]; simpl; [done|].
  unfold sort in IH. by rewrite sort_insert_perm, IH.
Qed.


Section Ordered.
Variables (cmp : A → A → Qc) (R : relation A).
Hypothesis before : ∀ x y, Qcltb (ofZ 0) (cmp x y) = false → R x y.
Hypothesis after : ∀ x y, Qcltb (ofZ 0) (cmp x y) = true → R y x.



End Ordered.

Lemma slice_nonneg (start stop : Z) l :
  0 ≤ start → 0 ≤ stop →
  slice start stop l = take (Z.to_nat (stop - start)) (drop (Z.to_nat start) l).
Proof.
  intros Hs He. unfold slice, relative_index.
  destruct (Z.ltb_spec start 0), (Z.ltb_spec stop 0); try lia.
  destruct (Z.le_gt_cases (Z.of_nat (length l)) start) as [Hge|Hlt].
  - rewrite (Z.min_r start) by lia. rewrite Nat2Z.id.
    rewrite !drop_ge by lia. by rewrite !take_nil.
  - rewrite (Z.min_l start) by lia.
    destruct (Z.le_gt_cases stop (Z.of_nat (length l))).
    + by rewrite (Z.min_l stop).
    + rewrite (Z.min_r stop) by lia.
      rewrite !take_ge; [done| |]; rewrite length_drop; lia.
Qed.
End ArrayFacts.

Section NumericSort.

Lemma this_minus (x y : Qc) : (this (x - y)%Qc == this x - this y)%Q.
Proof.
  unfold Qcminus, Qcplus, Qcopp. simpl. rewrite !Qred_correct. reflexivity.
Qed.



End NumericSort.

(** ** The quantile estimator *)

Section QuantileFacts.

Lemma ofZ_minus (a b : Z) : (ofZ a - ofZ b)%Qc = ofZ (a - b).
Proof.
  apply Qc_is_canon. rewrite this_minus, !this_ofZ.
  unfold Z.sub. rewrite inject_Z_plus, inject_Z_opp. reflexivity.
Qed.


Lemma get_nil (p : Qc) : get [] p = JUndefined.
Proof. unfold get. by destruct (_ && _). Qed.


End QuantileFacts.

(** ** Binary64 arithmetic *)

(** *** Rounding without error *)

Section Binary64Facts.
Import SpecFloat Binary64.

Lemma iter_pos_nat {A : Type} (f : A → A) (p : positive) (x : A) :
  iter_pos f p x = Nat.iter (Pos.to_nat p) f x.
Proof.
  revert x. induction p as [p IH|p IH|]; intros x; simpl iter_pos.
  - rewrite !IH, <- Nat.iter_add.
    change (f x) with (Nat.iter 1 f x). rewrite <- Nat.iter_add.
    f_equal. lia.
  - rewrite !IH, <- Nat.iter_add. f_equal. lia.
  - reflexivity.
Qed.

Lemma Pos_iter_shl (q d : positive) : Pos.iter xO q d = shl q (Pos.to_nat d).
Proof. apply Pos2Nat.inj_iter. Qed.

Lemma shl_add (q : positive) (n m : nat) : shl (shl q m) n = shl q (n + m).
Proof. unfold shl. by rewrite Nat.iter_add. Qed.

Lemma shl_value (q : positive) (n : nat) :
  Zpos (shl q n) = Zpos q * 2 ^ Z.of_nat n.
Proof.
  induction n as [|n IH].
  - simpl. lia.
  - unfold shl in *. rewrite Nat.iter_succ, Pos2Z.inj_xO, IH.
    rewrite Nat2Z.inj_succ, Z.pow_succ_r by lia. lia.
Qed.

Lemma shl_digits (q : positive) (n : nat) :
  Zpos (digits2_pos (shl q n)) = Zpos (digits2_pos q) + Z.of_nat n.
Proof.
  induction n as [|n IH].
  - simpl. lia.
  - unfold shl in *. rewrite Nat.iter_succ. simpl digits2_pos.
    rewrite Pos2Z.inj_succ, IH. lia.
Qed.

Lemma shr_trailing_zeros (q : positive) (n : nat) :
  Nat.iter n shr_1 {| shr_m := Zpos (shl q n); shr_r := false; shr_s := false |}
  = {| shr_m := Zpos q; shr_r := false; shr_s := false |}.
Proof.
  induction n as [|n IH]; [reflexivity|].
  rewrite Nat.iter_succ_r. unfold shl. rewrite Nat.iter_succ. simpl shr_1.
  apply IH.
Qed.

Lemma digits_size (p : positive) : digits2_pos p = Pos.size p.
Proof. induction p; simpl; congruence. Qed.

Lemma digits_bound (p : positive) :
  Zpos p < 2 ^ 53 → Zpos (digits2_pos p) ≤ 53.
Proof.
  intros H. rewrite digits_size.
  pose proof (Pos.size_le p) as Hle.
  apply Pos2Z.pos_le_pos in Hle. rewrite Pos2Z.inj_pow in Hle.
  change (Zpos p~0) with (2 * Zpos p) in Hle.
  destruct (Z.le_gt_cases (Zpos (Pos.size p)) 53) as [|Hgt]; [done|].
  assert (2 ^ 54 ≤ 2 ^ Zpos (Pos.size p)) as Hpow
    by (apply Z.pow_le_mono_r; lia).
  change (2 ^ 54) with (2 * 2 ^ 53) in Hpow. lia.
Qed.

(** A mantissa of 53 bits with an exponent in range is not changed by
    rounding. *)
Lemma round_canonical (s : bool) (m : positive) (e : Z) :
  Zpos (digits2_pos m) = 53 → -1074 ≤ e → e ≤ 971 →
  binary_round_aux prec emax s (Zpos m) e loc_Exact = S754_finite s m e.
Proof.
  intros Hd He1 He2.
  assert (shr_fexp prec emax (Zpos m) e loc_Exact =
          ({| shr_m := Zpos m; shr_r := false; shr_s := false |}, e)) as Hshr.
  { unfold shr_fexp, fexp, emin, prec, emax. simpl Zdigits2. rewrite Hd.
    replace (Z.max (53 + e - 53) (3 - 1024 - 53) - e) with 0 by lia.
    reflexivity. }
  unfold binary_round_aux. rewrite Hshr. simpl. rewrite Hshr. simpl.
  unfold prec, emax. destruct (Z.leb_spec e (1024 - 53)); [done|lia].
Qed.

(** Rounding the integer [q * 2^t * 2^e] is exact when [q] has at most
    53 bits: the result is the 53 bit mantissa of the same value. *)
Lemma binary_round_exact (s : bool) (q : positive) (t : nat) (e : Z) :
  let dq := Zpos (digits2_pos q) in
  dq ≤ 53 → -1074 ≤ e + Z.of_nat t + dq - 53 → e + Z.of_nat t + dq - 53 ≤ 971 →
  binary_round prec emax s (shl q t) e =
  S754_finite s (shl q (Z.to_nat (53 - dq))) (e + Z.of_nat t + dq - 53).
Proof.
  intros dq Hdq He1 He2. unfold binary_round.
  assert (fexp prec emax (Zpos (digits2_pos (shl q t)) + e) =
          dq + Z.of_nat t + e - 53) as ->.
  { rewrite shl_digits. unfold fexp, emin, prec, emax. fold dq. lia. }
  unfold shl_align.
  destruct (dq + Z.of_nat t + e - 53 - e) as [|n|d] eqn:E.
  - (* exactly 53 bits *)
    rewrite round_canonical; [|rewrite shl_digits; fold dq; lia|lia|lia].
    f_equal; [f_equal|]; lia.
  - (* more than 53 bits: the low bits are zero *)
    unfold binary_round_aux.
    assert (shr_fexp prec emax (Zpos (shl q t)) e loc_Exact =
            ({| shr_m := Zpos (shl q (Z.to_nat (53 - dq)));
                shr_r := false; shr_s := false |},
             e + Z.of_nat t + dq - 53)) as Hshr.
    { unfold shr_fexp. simpl Zdigits2. rewrite shl_digits. fold dq.
      unfold fexp, emin, prec, emax.
      replace (Z.max (dq + Z.of_nat t + e - 53) (3 - 1024 - 53) - e)
        with (Zpos n) by lia.
      unfold shr. rewrite iter_pos_nat. simpl shr_record_of_loc.
      replace t with (Pos.to_nat n + Z.to_nat (53 - dq))%nat at 1 by lia.
      rewrite <- shl_add, shr_trailing_zeros. f_equal. lia. }
    rewrite Hshr. simpl.
    assert (shr_fexp prec emax (Zpos (shl q (Z.to_nat (53 - dq))))
              (e + Z.of_nat t + dq - 53) loc_Exact =
            ({| shr_m := Zpos (shl q (Z.to_nat (53 - dq)));
                shr_r := false; shr_s := false |},
             e + Z.of_nat t + dq - 53)) as Hshr2.
    { unfold shr_fexp. simpl Zdigits2. rewrite shl_digits. fold dq.
      unfold fexp, emin, prec, emax.
      replace (Z.max (dq + Z.of_nat (Z.to_nat (53 - dq))
                      + (e + Z.of_nat t + dq - 53) - 53) (3 - 1024 - 53)
               - (e + Z.of_nat t + dq - 53)) with 0 by lia.
      reflexivity. }
    rewrite Hshr2. simpl. unfold prec, emax.
    destruct (Z.leb_spec (e + Z.of_nat t + dq - 53) (1024 - 53)); [done|lia].
  - (* fewer than 53 bits: shift left *)
    rewrite Pos_iter_shl, shl_add.
    rewrite round_canonical; [|rewrite shl_digits; fold dq; lia|lia|lia].
    f_equal; [f_equal|]; lia.
Qed.

(** ** Integers as doubles *)

Lemma of_int_pos (p : positive) :
  Zpos p < 2 ^ 53 →
  of_int (Zpos p) =
  S754_finite false (shl p (Z.to_nat (53 - Zpos (digits2_pos p))))
    (Zpos (digits2_pos p) - 53).
Proof.
  intros Hp. pose proof (digits_bound p Hp) as Hd.
  unfold of_int, binary_normalize.
  change p with (shl p 0) at 1.
  rewrite binary_round_exact by (simpl; lia).
  f_equal; simpl; lia.
Qed.

Lemma to_Z_shl (s : bool) (p : positive) (n : nat) :
  to_Z (S754_finite s (shl p n) (- Z.of_nat n)) = Some (cond_Zopp s (Zpos p)).
Proof.
  unfold to_Z. rewrite shl_value.
  destruct (Z.leb_spec 0 (- Z.of_nat n)) as [Hn|Hn].
  - assert (n = 0%nat) as -> by lia. simpl. f_equal. destruct s; simpl; lia.
  - rewrite Z.opp_involutive.
    assert (0 < 2 ^ Z.of_nat n) by (apply Z.pow_pos_nonneg; lia).
    rewrite Z.mod_mul, Z.div_mul by lia. reflexivity.
Qed.

Lemma to_Z_of_int (k : Z) : 0 ≤ k → k < 2 ^ 53 → to_Z (of_int k) = Some k.
Proof.
  intros H0 Hk. destruct k as [|p|p]; [reflexivity| |lia].
  pose proof (digits_bound p Hk) as Hd.
  rewrite of_int_pos by done.
  replace (Zpos (digits2_pos p) - 53)
    with (- Z.of_nat (Z.to_nat (53 - Zpos (digits2_pos p)))) by lia.
  apply to_Z_shl.
Qed.

Lemma add_of_int_one (k : Z) :
  0 ≤ k → k + 1 < 2 ^ 53 → add (of_int k) (of_int 1) = of_int (k + 1).
Proof.
  intros H0 Hk. destruct k as [|p|p]; [reflexivity| |lia].
  assert (Zpos p < 2 ^ 53) as Hp by lia.
  pose proof (digits_bound p Hp) as Hd.
  pose proof (digits_bound (p + 1) Hk) as Hd'.
  change (Zpos p + 1) with (Zpos (p + 1)).
  rewrite (of_int_pos p), (of_int_pos (p + 1)) by done.
  change (of_int 1) with (S754_finite false (shl 1 52) (-52)).
  set (d := Zpos (digits2_pos p)) in *.
  assert (0 < d) by (unfold d; lia).
  unfold add, SFadd.
  replace (Z.min (d - 53) (-52)) with (-52) by lia.
  assert (fst (shl_align (shl p (Z.to_nat (53 - d))) (d - 53) (-52))
          = shl p 52) as ->.
  { unfold shl_align. destruct (-52 - (d - 53)) as [|n|n] eqn:E.
    - cbn [fst]. f_equal. lia.
    - lia.
    - cbn [fst]. rewrite Pos_iter_shl, shl_add. f_equal. lia. }
  assert (fst (shl_align (shl 1 52) (-52) (-52)) = shl 1 52) as -> by done.
  assert (cond_Zopp false (Zpos (shl p 52)) + cond_Zopp false (Zpos (shl 1 52))
          = Zpos (shl (p + 1) 52)) as ->.
  { cbn [cond_Zopp]. rewrite !shl_value. lia. }
  unfold binary_normalize.
  rewrite binary_round_exact by (simpl; lia).
  f_equal; simpl; lia.
Qed.

(** ** Comparison *)

Lemma eqb_refl_finite (s : bool) (m : positive) (e : Z) :
  eqb (S754_finite s m e) (S754_finite s m e) = true.
Proof.
  unfold eqb, SFeqb, SFcompare.
  destruct s; rewrite Z.compare_refl;
    change (Pos.compare_cont Eq m m) with (Pos.compare m m);
    rewrite Pos.compare_refl; reflexivity.
Qed.

Lemma eqb_to_Z (x y : spec_float) : eqb x y = true → to_Z x = to_Z y.
Proof.
  unfold eqb, SFeqb, SFcompare.
  destruct x as [sx|sx| |sx mx ex], y as [sy|sy| |sy my ey];
    try done; try (by destruct sx); try (by destruct sy).
  destruct sx, sy; try done;
    destruct (Z.compare_spec ex ey); try done; subst;
    destruct (Pos.compare_cont Eq mx my) eqn:E; try done;
    apply (Pos.compare_eq mx my) in E; congruence.
Qed.

(** ** The sign of a rounded number *)

Lemma round_aux_negative (m : Z) (e : Z) (l : location) :
  ltb zero (binary_round_aux prec emax true m e l) = false.
Proof.
  unfold binary_round_aux.
  destruct (shr_fexp prec emax m e l) as [mrs' e'].
  destruct (shr_fexp prec emax _ e' loc_Exact) as [mrs'' e''].
  destruct (shr_m mrs''); [done| |done].
  by destruct (e'' <=? emax - prec).
Qed.

Lemma normalize_positive (z e : Z) :
  ltb zero (binary_normalize prec emax z e false) = true → 0 < z.
Proof.
  destruct z as [|p|p]; [done|lia|].
  unfold binary_normalize, binary_round.
  destruct (shl_align _ _ _) as [mz ez]. by rewrite round_aux_negative.
Qed.

Lemma normalize_nonpositive (z e : Z) :
  z ≤ 0 → ltb zero (binary_normalize prec emax z e false) = false.
Proof.
  intros Hz. destruct (ltb zero _) eqn:E; [|done].
  apply normalize_positive in E. lia.
Qed.

(** The comparator [a - b] of the numeric sort is asymmetric. *)
Lemma sub_positive_asym (x y : spec_float) :
  ltb zero (sub x y) = true → ltb zero (sub y x) = false.
Proof.
  destruct x as [sx|sx| |sx mx ex], y as [sy|sy| |sy my ey];
    try done; try (by destruct sx, sy); try (by destruct sx);
    try (by destruct sy).
  unfold sub, SFsub. intros H%normalize_positive.
  apply normalize_nonpositive. rewrite (Z.min_comm ey ex). lia.
Qed.

(** ** The numeric sort *)

Section SortFacts.
Context {A : Type} (cmp : A → A → spec_float).

Lemma sort64_insert_perm (x : A) (l : list A) :
  Binary64.sort_insert cmp x l ≡ₚ x :: l.
Proof.
  induction l as [|y l IH]; simpl; [done|].
  destruct (ltb zero (cmp x y)); [|done].
  rewrite IH. apply Permutation_swap.
Qed.

Lemma sort64_perm (l : list A) : Binary64.sort cmp l ≡ₚ l.
Proof.
  induction l as [|x l IH]; simpl; [done|].
  unfold Binary64.sort in *. simpl. rewrite sort64_insert_perm. by f_equiv.
Qed.

Lemma sort64_length (l : list A) : length (Binary64.sort cmp l) = length l.
Proof. by rewrite sort64_perm. Qed.

Hypothesis cmp_asym : ∀ x y,
  ltb zero (cmp x y) = true → ltb zero (cmp y x) = false.

Lemma sort64_insert_sorted (x : A) (l : list A) :
  Sorted (λ a b, ltb zero (cmp a b) = false) l →
  Sorted (λ a b, ltb zero (cmp a b) = false) (Binary64.sort_insert cmp x l).
Proof.
  induction 1 as [|y l Hl IH Hy]; simpl.
  - by repeat constructor.
  - destruct (ltb zero (cmp x y)) eqn:E.
    + constructor; [done|].
      destruct Hy as [|z l' Hz]; simpl.
      * constructor. by apply cmp_asym.
      * destruct (ltb zero (cmp x z)); constructor; [done|by apply cmp_asym].
    + constructor; [by constructor|by constructor].
Qed.

Lemma sort64_sorted (l : list A) :
  Sorted (λ a b, ltb zero (cmp a b) = false) (Binary64.sort cmp l).
Proof.
  induction l as [|x l IH]; [constructor|].
  by apply sort64_insert_sorted.
Qed.
End SortFacts.
End Binary64Facts.

(** *** Rounding a number that is at most an integer *)

Section RangeFacts.
Import SpecFloat Binary64.

Lemma digits_le (p : positive) (k : Z) :
  0 ≤ k → Zpos p < 2 ^ k → Zpos (digits2_pos p) ≤ k.
Proof.
  intros Hk H. rewrite digits_size.
  pose proof (Pos.size_le p) as Hle.
  apply Pos2Z.pos_le_pos in Hle. rewrite Pos2Z.inj_pow in Hle.
  change (Zpos p~0) with (2 * Zpos p) in Hle.
  destruct (Z.le_gt_cases (Zpos (Pos.size p)) k) as [|Hgt]; [done|].
  assert (2 ^ Z.succ k ≤ 2 ^ Zpos (Pos.size p)) as Hpow
    by (apply Z.pow_le_mono_r; lia).
  rewrite Z.pow_succ_r in Hpow by done. lia.
Qed.

Lemma shr_1_spec (m : Z) (r s : bool) :
  0 ≤ m →
  shr_1 {| shr_m := m; shr_r := r; shr_s := s |} =
  {| shr_m := Z.div2 m; shr_r := Z.odd m; shr_s := r || s |}.
Proof. intros Hm. destruct m as [|[p|p|]|p]; try done; lia. Qed.

Lemma shr_iter_spec (m : Z) (n : nat) :
  0 ≤ m →
  ∃ r s,
    Nat.iter n shr_1 {| shr_m := m; shr_r := false; shr_s := false |} =
    {| shr_m := m / 2 ^ Z.of_nat n; shr_r := r; shr_s := s |} ∧
    (m mod 2 ^ Z.of_nat n = 0 → r = false ∧ s = false).
Proof.
  intros Hm. induction n as [|n (r & s & IH & Hex)].
  - exists false, false. simpl. by rewrite Z.div_1_r.
  - assert (0 < 2 ^ Z.of_nat n) as Hpow by (apply Z.pow_pos_nonneg; lia).
    rewrite Nat.iter_succ, IH, shr_1_spec by (apply Z.div_pos; lia).
    exists (Z.odd (m / 2 ^ Z.of_nat n)), (r || s).
    rewrite Nat2Z.inj_succ, Z.pow_succ_r by lia. split.
    + f_equal. rewrite Z.div2_div, Z.div_div by lia. f_equal. lia.
    + rewrite (Z.mul_comm 2), Z.rem_mul_r by lia. intros Hmod.
      pose proof (Z.mod_pos_bound m (2 ^ Z.of_nat n) Hpow).
      pose proof (Z.mod_pos_bound (m / 2 ^ Z.of_nat n) 2 eq_refl).
      assert (m mod 2 ^ Z.of_nat n = 0) as Hlow by nia.
      assert ((m / 2 ^ Z.of_nat n) mod 2 = 0) as Hbit by nia.
      destruct (Hex Hlow) as [-> ->]. split; [|done].
      rewrite Zmod_odd in Hbit. by destruct (Z.odd _).
Qed.

Lemma shr_fexp_exact_spec (m e : Z) :
  0 ≤ m →
  let n := Z.max (fexp prec emax (Zdigits2 m + e) - e) 0 in
  ∃ r s,
    shr_fexp prec emax m e loc_Exact =
    ({| shr_m := m / 2 ^ n; shr_r := r; shr_s := s |}, e + n) ∧
    (m mod 2 ^ n = 0 → r = false ∧ s = false).
Proof.
  intros Hm n. unfold shr_fexp, shr. cbn [shr_record_of_loc]. subst n.
  destruct (fexp prec emax (Zdigits2 m + e) - e) as [|p|p] eqn:E.
  - exists false, false. cbn [Z.max Z.compare]. rewrite Z.div_1_r, Z.add_0_r. done.
  - rewrite iter_pos_nat.
    destruct (shr_iter_spec m (Pos.to_nat p) Hm) as (r & s & -> & H).
    exists r, s. rewrite positive_nat_Z in *.
    replace (Z.max (Zpos p) 0) with (Zpos p) by lia. done.
  - exists false, false.
    replace (Z.max (Zneg p) 0) with 0 by lia.
    rewrite Z.div_1_r, Z.add_0_r. done.
Qed.

Lemma shift_bounded (m e N : Z) :
  0 ≤ m → e ≤ 0 → N < 2 ^ 53 → m ≤ N * 2 ^ (- e) →
  let n := Z.max (fexp prec emax (Zdigits2 m + e) - e) 0 in
  e + n ≤ 0 ∧ m / 2 ^ n ≤ N * 2 ^ (- (e + n)) ∧
  (m mod 2 ^ n ≠ 0 → m / 2 ^ n < N * 2 ^ (- (e + n))).
Proof.
  intros Hm He HN Hle n.
  assert (0 ≤ n) as Hn by (subst n; lia).
  assert (0 < 2 ^ (- e)) as Hpe by (apply Z.pow_pos_nonneg; lia).
  assert (e + n ≤ 0) as Hen.
  { subst n. unfold fexp, emin, prec, emax.
    destruct m as [|p|p]; [simpl; lia| |lia].
    assert (Zpos (digits2_pos p) ≤ 53 - e) as Hd.
    { apply digits_le; [lia|].
      replace (53 - e) with (53 + - e) by lia.
      rewrite Z.pow_add_r by lia. nia. }
    cbn [Zdigits2]. lia. }
  split; [done|].
  assert (0 < 2 ^ n) as Hpn by (apply Z.pow_pos_nonneg; lia).
  assert (2 ^ (- e) = 2 ^ n * 2 ^ (- (e + n))) as Hsplit.
  { rewrite <- Z.pow_add_r by lia. f_equal. lia. }
  rewrite Hsplit in Hle. split.
  - apply Z.div_le_upper_bound; [done|]. lia.
  - intros Hmod. apply Z.div_lt_upper_bound; [done|].
    destruct (Z.eq_dec m (2 ^ n * (N * 2 ^ (- (e + n))))) as [Heq|]; [|lia].
    rewrite Heq, Z.mul_comm, Z.mod_mul in Hmod by lia. done.
Qed.

Lemma round_nearest_even_bounds (m : Z) (r s : bool) :
  let m1 := round_nearest_even m
              (loc_of_shr_record {| shr_m := m; shr_r := r; shr_s := s |}) in
  m ≤ m1 ∧ m1 ≤ m + 1 ∧ (r = false ∧ s = false → m1 = m).
Proof.
  destruct r, s; simpl; try destruct (Z.even m); repeat split; try lia;
    by intros [? ?].
Qed.

(** Rounding a positive number that is at most the integer [N] gives a
    number that is at most [N]. *)
Lemma round_aux_bounded (M : positive) (E N : Z) :
  E ≤ 0 → N < 2 ^ 53 → Zpos M ≤ N * 2 ^ (- E) →
  binary_round_aux prec emax false (Zpos M) E loc_Exact = S754_zero false ∨
  ∃ m e,
    binary_round_aux prec emax false (Zpos M) E loc_Exact =
    S754_finite false m e ∧ e ≤ 0 ∧ Zpos m ≤ N * 2 ^ (- e).
Proof.
  intros HE HN Hle. unfold binary_round_aux.
  destruct (shr_fexp_exact_spec (Zpos M) E) as (r & s & -> & Hex); [lia|].
  destruct (shift_bounded (Zpos M) E N) as (He' & Hm' & Hstrict);
    [lia|done|done|done|].
  set (n := Z.max (fexp prec emax (Zdigits2 (Zpos M) + E) - E) 0) in *.
  set (m' := Zpos M / 2 ^ n) in *. set (e' := E + n) in *.
  assert (0 ≤ m') as Hm'0.
  { apply Z.div_pos; [lia|]. apply Z.pow_pos_nonneg; lia. }
  cbn [shr_m].
  destruct (round_nearest_even_bounds m' r s) as (Hlo & Hhi & Hsame).
  set (m1 := round_nearest_even m' _) in *.
  assert (m1 ≤ N * 2 ^ (- e')) as Hm1.
  { destruct (Z.eq_dec (Zpos M mod 2 ^ n) 0) as [H0|H0].
    - rewrite (Hsame (Hex H0)). done.
    - specialize (Hstrict H0). lia. }
  destruct (shr_fexp_exact_spec m1 e') as (r2 & s2 & -> & _); [lia|].
  destruct (shift_bounded m1 e' N) as (He'' & Hm'' & _);
    [lia|done|done|done|].
  set (n2 := Z.max (fexp prec emax (Zdigits2 m1 + e') - e') 0) in *.
  cbn [shr_m].
  assert (0 ≤ m1 / 2 ^ n2) as Hm2.
  { apply Z.div_pos; [lia|]. apply Z.pow_pos_nonneg; subst n2; lia. }
  destruct (m1 / 2 ^ n2) as [|m2|m2] eqn:E2; [by left| |lia].
  right. exists m2, (e' + n2).
  unfold emax, prec. destruct (Z.leb_spec (e' + n2) (1024 - 53)); [done|lia].
Qed.

(** The largest integer that is not above a double, and the double itself
    when it is an integer, for a double between 0 and [N]. *)
Lemma bounded_floorZ (m : positive) (e N : Z) :
  e ≤ 0 → Zpos m ≤ N * 2 ^ (- e) →
  ∃ k, floorZ (S754_finite false m e) = Some k ∧ 0 ≤ k ∧ k ≤ N ∧
       (to_Z (S754_finite false m e) = Some k ∨
        to_Z (S754_finite false m e) = None ∧ k < N).
Proof.
  intros He Hle. unfold floorZ, to_Z. cbn [cond_Zopp].
  destruct (Z.leb_spec 0 e) as [H0|H0].
  - assert (e = 0) as -> by lia. exists (Zpos m). simpl in *.
    repeat split; try lia; [f_equal; lia|left; f_equal; lia].
  - assert (0 < 2 ^ (- e)) as Hp by (apply Z.pow_pos_nonneg; lia).
    exists (Zpos m / 2 ^ (- e)). split; [done|].
    split; [apply Z.div_pos; lia|].
    split; [apply Z.div_le_upper_bound; [done|lia]|].
    destruct (Z.eqb_spec (Zpos m mod 2 ^ (- e)) 0) as [Hmod|Hmod]; [by left|].
    right. split; [done|]. apply Z.div_lt_upper_bound; [done|].
    destruct (Z.eq_dec (Zpos m) (2 ^ (- e) * N)) as [Heq|]; [|lia].
    rewrite Heq, Z.mul_comm, Z.mod_mul in Hmod by lia. done.
Qed.
End RangeFacts.

(** ** The quantile estimator in binary64 *)

Section Quantile64Facts.
Import SpecFloat Binary64.

Lemma of_int_shape (N : Z) :
  0 ≤ N → N < 2 ^ 53 →
  of_int N = S754_zero false ∧ N = 0 ∨
  ∃ (p : positive) (t : nat),
    N = Zpos p ∧ of_int N = S754_finite false (shl p t) (- Z.of_nat t).
Proof.
  intros H0 HN. destruct N as [|p|p]; [by left| |lia].
  right. pose proof (digits_bound p HN) as Hd.
  exists p, (Z.to_nat (53 - Zpos (digits2_pos p))). split; [done|].
  rewrite of_int_pos by done. f_equal. lia.
Qed.

Lemma sub_of_int_one (n : Z) :
  1 ≤ n → n < 2 ^ 53 → sub (of_int n) (of_int 1) = of_int (n - 1).
Proof.
  intros H1 Hn. destruct n as [|p|p]; [lia| |lia].
  pose proof (digits_bound p Hn) as Hd.
  rewrite (of_int_pos p) by done.
  change (of_int 1) with (S754_finite false (shl 1 52) (-52)).
  set (d := Zpos (digits2_pos p)) in *.
  assert (0 < d) by (unfold d; lia).
  unfold sub, SFsub.
  replace (Z.min (d - 53) (-52)) with (-52) by lia.
  assert (fst (shl_align (shl p (Z.to_nat (53 - d))) (d - 53) (-52))
          = shl p 52) as ->.
  { unfold shl_align. destruct (-52 - (d - 53)) as [|n|n] eqn:E.
    - cbn [fst]. f_equal. lia.
    - lia.
    - cbn [fst]. rewrite Pos_iter_shl, shl_add. f_equal. lia. }
  assert (fst (shl_align (shl 1 52) (-52) (-52)) = shl 1 52) as -> by done.
  cbn [cond_Zopp]. rewrite !shl_value.
  destruct (Pos.eq_dec p 1%positive) as [->|Hp]; [reflexivity|].
  pose proof (Pos2Z.inj_pred p Hp) as Hpred.
  assert (Zpos p * 2 ^ Z.of_nat 52 - 1 * 2 ^ Z.of_nat 52
          = Zpos (shl (Pos.pred p) 52)) as ->.
  { rewrite shl_value, Hpred. lia. }
  assert (Zpos p - 1 = Zpos (Pos.pred p)) as -> by lia.
  assert (Zpos (Pos.pred p) < 2 ^ 53) as Hp1 by lia.
  pose proof (digits_bound (Pos.pred p) Hp1) as Hd1.
  rewrite (of_int_pos (Pos.pred p)) by done.
  unfold binary_normalize.
  rewrite binary_round_exact by (simpl; lia).
  f_equal; simpl; lia.
Qed.

(** A valid number between 0 and 1. *)
Lemma unit_interval_shape (q : spec_float) :
  valid q = true → leb zero q = true → leb q (of_int 1) = true →
  (∃ s, q = S754_zero s) ∨
  ∃ m e, q = S754_finite false m e ∧ e ≤ 0 ∧ Zpos m ≤ 2 ^ (- e).
Proof.
  intros Hv H0 H1. destruct q as [s|s| |s m e]; try done.
  - by left; exists s.
  - by destruct s.
  - right. destruct s; [done|]. exists m, e. split; [done|].
    unfold valid, valid_binary, bounded, canonical_mantissa in Hv.
    apply andb_true_iff in Hv as [Hc%Z.eqb_eq _].
    unfold fexp, emin, prec, emax in Hc.
    assert (Zpos m < 2 ^ 53) as Hm.
    { pose proof (Pos.size_gt m) as Hgt. rewrite <- digits_size in Hgt.
      apply Pos2Z.pos_lt_pos in Hgt. rewrite Pos2Z.inj_pow in Hgt.
      assert (2 ^ Zpos (digits2_pos m) ≤ 2 ^ 53)
        by (apply Z.pow_le_mono_r; lia).
      lia. }
    change (of_int 1) with (S754_finite false 4503599627370496 (-52)) in H1.
    unfold leb, SFleb, SFcompare in H1.
    destruct (Z.compare_spec e (-52)) as [->|He|He]; [| |done].
    + split; [lia|].
      pose proof (Pos.compare_spec m 4503599627370496) as Hcmp.
      unfold Pos.compare in Hcmp. revert H1.
      change (2 ^ (- -52)) with 4503599627370496.
      destruct Hcmp as [Heq|Hlt|Hgt]; intros H1; [| |discriminate].
      * clear -Heq. lia.
      * apply Pos2Z.pos_lt_pos in Hlt. clear -Hlt. lia.
    + split; [lia|].
      assert (2 ^ 53 ≤ 2 ^ (- e)) by (apply Z.pow_le_mono_r; lia). lia.
Qed.

(** The position [q * (n - 1)] stays inside the array. *)
Lemma position_in_range (q : spec_float) (N : Z) :
  valid q = true → leb zero q = true → leb q (of_int 1) = true →
  0 ≤ N → N < 2 ^ 53 →
  ∃ k, floorZ (mul q (of_int N)) = Some k ∧ 0 ≤ k ∧ k ≤ N ∧
       (to_Z (mul q (of_int N)) = Some k ∨
        to_Z (mul q (of_int N)) = None ∧ k < N).
Proof.
  intros Hv Hq0 Hq1 HN0 HN.
  destruct (of_int_shape N HN0 HN) as [[-> ->]|(p & t & -> & HN')].
  - destruct (unit_interval_shape q Hv Hq0 Hq1) as [[s ->]|(m & e & -> & _)];
      exists 0; repeat split; try done; by left.
  - rewrite HN'.
    destruct (unit_interval_shape q Hv Hq0 Hq1)
      as [[s ->]|(m & e & -> & He & Hm)].
    { exists 0. repeat split; try done; by left. }
    unfold mul, SFmul. cbn [xorb].
    assert (0 < 2 ^ Z.of_nat t) by (apply Z.pow_pos_nonneg; lia).
    assert (0 < 2 ^ (- e)) by (apply Z.pow_pos_nonneg; lia).
    destruct (round_aux_bounded (m * shl p t) (e + - Z.of_nat t) (Zpos p))
      as [->|(m' & e' & -> & He' & Hm')]; [lia|done| | |].
    + rewrite Pos2Z.inj_mul, shl_value.
      replace (- (e + - Z.of_nat t)) with (- e + Z.of_nat t) by lia.
      rewrite Z.pow_add_r by lia. nia.
    + exists 0. repeat split; try done; by left.
    + apply bounded_floorZ; done.
Qed.

Lemma eqb_integer (x : spec_float) (k : Z) :
  to_Z x = Some k → eqb x (floor x) = true.
Proof.
  intros Hx. unfold floor. rewrite Hx.
  destruct x as [s|s| |s m e]; try done. apply eqb_refl_finite.
Qed.

Lemma floor_fraction (x : spec_float) (k : Z) :
  to_Z x = None → floorZ x = Some k → 0 ≤ k → k < 2 ^ 53 →
  floor x = of_int k ∧ eqb x (floor x) = false.
Proof.
  intros Hx Hk H0 Hlt. unfold floor. rewrite Hx, Hk. split; [done|].
  destruct (eqb x (of_int k)) eqn:E; [|done].
  apply eqb_to_Z in E. rewrite Hx, to_Z_of_int in E by done. done.
Qed.

Lemma get_of_int (a : list spec_float) (k : Z) (x : spec_float) :
  0 ≤ k → k < 2 ^ 53 → a !! Z.to_nat k = Some x → get a (of_int k) = FNum x.
Proof.
  intros H0 Hk Hx. unfold get. rewrite to_Z_of_int by done.
  pose proof (lookup_lt_Some _ _ _ Hx).
  destruct (Z.leb_spec 0 k); [|lia].
  destruct (Z.ltb_spec k (Z.of_nat (length a))); [|lia].
  simpl. by rewrite Hx.
Qed.

Lemma get_integer (a : list spec_float) (p : spec_float) (k : Z)
    (x : spec_float) :
  to_Z p = Some k → 0 ≤ k → a !! Z.to_nat k = Some x → get a p = FNum x.
Proof.
  intros Hp H0 Hx. unfold get. rewrite Hp.
  pose proof (lookup_lt_Some _ _ _ Hx).
  destruct (Z.leb_spec 0 k); [|lia].
  destruct (Z.ltb_spec k (Z.of_nat (length a))); [|lia].
  simpl. by rewrite Hx.
Qed.

Lemma quantile64_single (x q : spec_float) :
  isFinite q = true → quantile64 [x] q = FNum x.
Proof.
  intros Hq. unfold quantile64.
  change (Binary64.sort _ [x]) with [x].
  change (sub (of_int (Z.of_nat (length [x]))) (of_int 1))
    with (S754_zero false).
  destruct q as [s|s| |s m e]; try done; by destruct s.
Qed.

(** On a non-empty array and a valid [q] between 0 and 1 the estimator
    returns the interpolated order statistic. *)
Lemma quantile64_general (arr : list spec_float) (q : spec_float) :
  arr ≠ [] → Z.of_nat (length arr) < 2 ^ 32 →
  valid q = true → leb zero q = true → leb q (of_int 1) = true →
  ∃ v, quantile64 arr q = FNum v ∧ interpolated_order_statistic64 arr q v.
Proof.
  intros Hne Hlen Hv Hq0 Hq1.
  assert (1 ≤ Z.of_nat (length arr)) as Hlen1
    by (destruct arr; simpl; [done|lia]).
  assert (2 ^ 32 < 2 ^ 53) as Hpow by done.
  unfold quantile64, interpolated_order_statistic64.
  rewrite (sort64_length _ arr), sub_of_int_one by lia.
  set (s := Binary64.sort _ arr).
  assert (length s = length arr) as Hs by apply sort64_length.
  assert (Sorted (λ a b, ltb zero (sub a b) = false) s) as Hsorted
    by apply (sort64_sorted _ sub_positive_asym).
  assert (s ≡ₚ arr) as Hperm by apply sort64_perm.
  destruct (position_in_range q (Z.of_nat (length arr) - 1))
    as (k & Hk & Hk0 & Hk1 & Hcase); [done|done|done|lia|lia|].
  set (position := mul q _) in *.
  destruct (lookup_lt_is_Some_2 s (Z.to_nat k)) as [x Hx]; [lia|].
  destruct Hcase as [Hint|[Hfrac Hlt]].
  - rewrite (eqb_integer _ _ Hint), (get_integer _ _ _ _ Hint Hk0 Hx).
    exists x. split; [done|]. exists s. split; [done|]. split; [done|].
    cbn zeta. exists k. split; [done|]. split; [done|].
    split; [done|]. rewrite Hint. done.
  - destruct (floor_fraction _ _ Hfrac Hk Hk0) as [-> ->]; [lia|].
    destruct (lookup_lt_is_Some_2 s (Z.to_nat (k + 1))) as [y Hy]; [lia|].
    rewrite add_of_int_one, (get_of_int _ k x), (get_of_int _ (k + 1) y)
      by (done || lia).
    eexists. split; [reflexivity|]. exists s. split; [done|]. split; [done|].
    cbn zeta. exists k. split; [done|]. split; [done|].
    split; [rewrite Hfrac; by intros [? ?]|]. intros _. by exists x, y.
Qed.
End Quantile64Facts.

(** C1.  In the arithmetic of binary64, on a non-empty array (of fewer
    than 2^32 elements, as every array has) and a quantile [q] between 0
    and 1, [quantile] returns the linearly interpolated order statistic:
    with the array sorted ascending and [position = q * (n - 1)], it
    returns the element at [position] when [position] is an integer, and
    otherwise the sum of the element at [floor position] times one minus
    the fractional part and the element at [floor position + 1] times the
    fractional part; the product [q * (n - 1)], the two weighted elements
    and their sum are rounded to the nearest binary64 number.  For
    [[10, 20, 30, 40]] this gives 25 at 0.5, 32.5 at 0.75 and
    39.699999999999996 at 0.99; on a single element it gives that element
    for every finite [q]. *)
Theorem quantile64_interpolated_order_statistic :
  (∀ (arr : list SpecFloat.spec_float) (q : SpecFloat.spec_float),
     arr ≠ [] → Z.of_nat (length arr) < 2 ^ 32 →
     Binary64.valid q = true →
     Binary64.leb Binary64.zero q = true →
     Binary64.leb q (Binary64.of_int 1) = true →
     ∃ v : SpecFloat.spec_float,
       quantile64 arr q = Binary64.FNum v ∧
       interpolated_order_statistic64 arr q v) ∧
  quantile64 ten_to_forty (Binary64.decimal 1 2)
    = Binary64.FNum (Binary64.of_int 25) ∧
  quantile64 ten_to_forty (Binary64.decimal 3 4)
    = Binary64.FNum (Binary64.decimal 65 2) ∧
  quantile64 ten_to_forty (Binary64.decimal 99 100)
    = Binary64.FNum (Binary64.decimal 39699999999999996 1000000000000000) ∧
  (∀ x q : SpecFloat.spec_float,
     Binary64.isFinite q = true → quantile64 [x] q = Binary64.FNum x).
Proof.
  split; [exact quantile64_general|].
  split; [vm_compute; reflexivity|].
  split; [vm_compute; reflexivity|].
  split; [vm_compute; reflexivity|].
  exact quantile64_single.
Qed.

Lemma quantile64_interpolated_order_statistic_witness :
  ten_to_forty ≠ [] ∧ Z.of_nat (length ten_to_forty) < 2 ^ 32 ∧
  Binary64.valid (Binary64.decimal 99 100) = true ∧
  Binary64.leb Binary64.zero (Binary64.decimal 99 100) = true ∧
  Binary64.leb (Binary64.decimal 99 100) (Binary64.of_int 1) = true ∧
  ∃ v : SpecFloat.spec_float,
    quantile64 ten_to_forty (Binary64.decimal 99 100) = Binary64.FNum v ∧
    interpolated_order_statistic64 ten_to_forty (Binary64.decimal 99 100) v.
Proof.
  assert (ten_to_forty ≠ []) as H by (unfold ten_to_forty; discriminate).
  assert (Z.of_nat (length ten_to_forty) < 2 ^ 32) as Hlen
    by (vm_compute; reflexivity).
  assert (Binary64.valid (Binary64.decimal 99 100) = true) as Hv
    by (vm_compute; reflexivity).
  assert (Binary64.leb Binary64.zero (Binary64.decimal 99 100) = true) as H0
    by (vm_compute; reflexivity).
  assert (Binary64.leb (Binary64.decimal 99 100) (Binary64.of_int 1) = true)
    as H1 by (vm_compute; reflexivity).
  split; [exact H|]. split; [exact Hlen|]. split; [exact Hv|].
  split; [exact H0|]. split; [exact H1|].
  exact (proj1 quantile64_interpolated_order_statistic _ _ H Hlen Hv H0 H1).
Defined.

(** On [[10, 20, 30, 40]] the result at 0.99 is 39.699999999999996, the
    binary64 number next below 39.7, and not 39.7: the position
    [0.99 * 3] is rounded to 2.9699999999999998 and the weighted elements
    and their sum are rounded again. *)
Lemma quantile64_p99_is_not_39_7 :
  quantile64 ten_to_forty (Binary64.decimal 99 100)
    = Binary64.FNum (Binary64.decimal 39699999999999996 1000000000000000) ∧
  quantile64 ten_to_forty (Binary64.decimal 99 100)
    ≠ Binary64.FNum (Binary64.decimal 397 10) ∧
  Binary64.ltb (Binary64.decimal 39699999999999996 1000000000000000)
    (Binary64.decimal 397 10) = true.
Proof.
  split; [vm_compute; reflexivity|].
  split; [|vm_compute; reflexivity].
  intros H. vm_compute in H. discriminate.
Qed.

(** C8.  On an empty array [quantile] returns [undefined] or [NaN] for
    every [q]: [undefined] when [q] is an integer, [NaN] otherwise.  It
    never returns a number, in particular never zero; no operation of the
    function can throw, so the model is a total function. *)
Theorem quantile_empty_no_value :
  ∀ q : Qc,
    (quantile [] q = JUndefined ∨ quantile [] q = JNaN) ∧
    quantile [] q ≠ JNum (ofZ 0) ∧
    (∀ x : Qc, quantile [] q ≠ JNum x) ∧
    (quantile [] q = JUndefined ↔ (- q)%Qc = ofZ (Qfloor (- q)%Qc)).
Proof.
  intros q.
  assert (quantile [] q =
          if Qceqb (- q)%Qc (ofZ (Qfloor (- q)%Qc)) then JUndefined else JNaN)
    as ->.
  { unfold quantile. change (sort _ []) with (@nil Qc).
    change (Z.of_nat (length [])) with 0.
    assert (q * (ofZ 0 - ofZ 1) = - q)%Qc as ->.
    { rewrite ofZ_minus. change (ofZ (0 - 1)) with (- (1))%Qc. ring. }
    rewrite !get_nil. unfold Math_floor. by destruct (Qceqb _ _). }
  destruct (Qceqb _ _) eqn:E.
  - split; [by left|]. split; [done|]. split; [done|].
    split; [intros _; by apply Qceqb_true|done].
  - split; [by right|]. split; [done|]. split; [done|].
    split; [done|]. intros H. apply Qceqb_true in H. congruence.
Qed.



(** ** The pager *)

(** C2, as the code has it.  For a cursor that is not negative the page
    is the rows from the cursor on, at most [RESULTS_PER_PAGE] of them;
    nothing clamps the cursor: a cursor at or beyond the end of the rows
    gives the empty page.  With 120 rows, cursor 100 gives the 20 rows
    from 100 on and cursor 200 gives no row. *)
Theorem page_slices_without_clamping :
  ∀ (A : Type) (rows : list A) (cursor : Z),
    0 ≤ cursor →
    page rows cursor = take 50 (drop (Z.to_nat cursor) rows) ∧
    (Z.of_nat (length rows) ≤ cursor → page rows cursor = []) ∧
    (cursor ≤ Z.of_nat (length rows) →
     Z.of_nat (length (page rows cursor)) =
       Z.min 50 (Z.of_nat (length rows) - cursor)) ∧
    (length rows = 120%nat →
     (cursor = 100 → page rows cursor = drop 100 rows ∧
                     length (page rows cursor) = 20%nat) ∧
     (cursor = 200 → page rows cursor = [])).
Proof.
  intros A rows cursor Hc.
  assert (page rows cursor = take 50 (drop (Z.to_nat cursor) rows)) as Hp.
  { unfold page, RESULTS_PER_PAGE. rewrite slice_nonneg by lia.
    f_equal. lia. }
  rewrite Hp. split; [done|]. split; [|split].
  - intros Hge. rewrite drop_ge by lia. apply take_nil.
  - intros Hle. rewrite length_take, length_drop. lia.
  - intros Hlen. split.
    + intros ->. split.
      * apply take_ge. rewrite length_drop. lia.
      * rewrite length_take, length_drop. lia.
    + intros ->. rewrite drop_ge by lia. apply take_nil.
Qed.

Lemma page_slices_without_clamping_witness :
  0 ≤ 100 ∧
  page (seqZ 0 120) 100 = take 50 (drop (Z.to_nat 100) (seqZ 0 120)) ∧
  page (seqZ 0 120) 100 = seqZ 100 20.
Proof.
  assert (0 ≤ 100) as H by lia.
  split; [exact H|]. split.
  - exact (proj1 (page_slices_without_clamping Z (seqZ 0 120) 100 H)).
  - vm_compute. reflexivity.
Defined.

(** C2, as the claim states it, fails: with 120 rows and cursor 200 the
    page is empty, it is not the last page, rows 70 to 119. *)
Lemma page_beyond_end_is_empty :
  length (seqZ 0 120) = 120%nat ∧ Z.of_nat (length (seqZ 0 120)) < 200 ∧
  page (seqZ 0 120) 200 = [] ∧
  page (seqZ 0 120) 200 ≠ seqZ 70 50.
Proof.
  split; [reflexivity|]. split; [vm_compute; reflexivity|].
  split; [vm_compute; reflexivity|]. vm_compute. discriminate.
Qed.

(** ** The occurrence view *)

Lemma occurrence_transform_take (t : string → string) (frames : list Frame) :
  transform (occurrence t) frames = frame_row <$> take 500 frames.
Proof.
  simpl. unfold occurrence_transform.
  rewrite slice_nonneg by lia. simpl. by rewrite drop_0.
Qed.

(** C3, as the code has it.  The occurrence view keeps the first 500
    collected frames, in order and without removing duplicates: it has
    one row per frame when there are at most 500 frames, and 500 rows
    otherwise. *)
Theorem occurrence_keeps_first_500 :
  ∀ (t : string → string) (frames : list Frame),
    transform (occurrence t) frames = frame_row <$> take 500 frames ∧
    length (transform (occurrence t) frames) = (length frames `min` 500)%nat ∧
    (∀ i f, (i < 500)%nat → frames !! i = Some f →
            transform (occurrence t) frames !! i = Some (frame_row f)) ∧
    transform (occurrence t) (frames ++ frames) =
      frame_row <$> take 500 (frames ++ frames).
Proof.
  intros t frames. rewrite !occurrence_transform_take.
  split; [done|]. split; [|split; [|done]].
  - rewrite length_fmap, length_take. lia.
  - intros i f Hi Hf. rewrite list_lookup_fmap, lookup_take_lt by done.
    by rewrite Hf.
Qed.

Lemma occurrence_keeps_first_500_witness :
  (0 < 500)%nat ∧ [frame_a; frame_b] !! 0%nat = Some frame_a ∧
  transform (occurrence id) [frame_a; frame_b] !! 0%nat =
    Some (frame_row frame_a).
Proof.
  assert (0 < 500)%nat as H by lia.
  assert ([frame_a; frame_b] !! 0%nat = Some frame_a) as Hf by reflexivity.
  split; [exact H|]. split; [exact Hf|].
  exact (proj1 (proj2 (proj2
           (occurrence_keeps_first_500 id [frame_a; frame_b]))) _ _ H Hf).
Defined.

(** C3, as the claim states it, fails: 501 collected frames give 500
    rows. *)
Lemma occurrence_truncates_501_frames :
  length (replicate 501 frame_a) = 501%nat ∧
  length (transform (occurrence id) (replicate 501 frame_a)) = 500%nat ∧
  length (transform (occurrence id) (replicate 501 frame_a)) ≠
    length (replicate 501 frame_a).
Proof.
  rewrite occurrence_transform_take, length_fmap, length_take.
  rewrite length_replicate. repeat split; lia.
Qed.

(** ** The stages after aggregation and the arrays they share *)

Section StageFacts.
Context {A : Type}.
Implicit Types (σ : gmap nat (list A)) (a : Heap.ref) (l : list A).

Lemma fresh_unallocated σ : σ !! fresh (dom σ) = None.
Proof. apply not_elem_of_dom. apply is_fresh. Qed.

Lemma heap_filter_spec (p : A → bool) σ a l :
  σ !! a = Some l →
  Heap.filter p a σ =
    Some (fresh (dom σ), <[fresh (dom σ):=array_filter p l]> σ).
Proof.
  intros H. unfold Heap.filter, mbind, Heap.M_bind, Heap.read.
  by rewrite H.
Qed.

Lemma heap_sort_spec (cmp : A → A → Qc) σ a l :
  σ !! a = Some l →
  Heap.sort cmp a σ = Some (a, <[a:=Js.sort cmp l]> σ).
Proof.
  intros H. unfold Heap.sort, mbind, Heap.M_bind, Heap.read.
  by rewrite H.
Qed.

Lemma heap_slice_spec (start stop : Z) σ a l :
  σ !! a = Some l →
  Heap.slice start stop a σ =
    Some (fresh (dom σ), <[fresh (dom σ):=slice start stop l]> σ).
Proof.
  intros H. unfold Heap.slice, mbind, Heap.M_bind, Heap.read.
  by rewrite H.
Qed.
End StageFacts.

(** C4, as the code has it.  The filter stage and the slice stage each
    return a new array and leave the array they read as it was.  The sort
    stage does not: it sorts the array the filter stage returned in place
    and returns that same array, so that after a pass [filteredData] and
    [sortedData] name one array, which holds the sorted rows.  No stage
    changes the array of search results or any other array. *)
Theorem sort_stage_sorts_filtered_array_in_place :
  ∀ (filterPredicate : TableDataRow → bool)
    (sortCompareFn : TableDataRow → TableDataRow → Qc)
    (σ : gmap nat (list TableDataRow)) (a : Heap.ref)
    (rows : list TableDataRow) (cursor : Z),
    σ !! a = Some rows →
    (∃ f, σ !! f = None ∧
          filteredData filterPredicate a σ =
            Some (f, <[f:=array_filter filterPredicate rows]> σ)) ∧
    sortedData sortCompareFn a σ =
      Some (a, <[a:=Js.sort sortCompareFn rows]> σ) ∧
    (∃ d, σ !! d = None ∧
          data a cursor σ = Some (d, <[d:=page rows cursor]> σ)) ∧
    (∃ f d σ',
       stages filterPredicate sortCompareFn a cursor σ =
         Some ((f, f, d), σ') ∧
       σ !! f = None ∧ σ !! d = None ∧ f ≠ d ∧
       σ' !! a = Some rows ∧
       σ' !! f =
         Some (Js.sort sortCompareFn (array_filter filterPredicate rows)) ∧
       σ' !! d =
         Some (page (Js.sort sortCompareFn (array_filter filterPredicate rows))
                 cursor) ∧
       (∀ b, b ≠ f → b ≠ d → σ' !! b = σ !! b)).
Proof.
  intros p cmp σ a rows cursor Ha.
  split; [|split; [|split]].
  - exists (fresh (dom σ)). split; [apply fresh_unallocated|].
    by apply heap_filter_spec.
  - by apply heap_sort_spec.
  - exists (fresh (dom σ)). split; [apply fresh_unallocated|].
    unfold data, page. by apply heap_slice_spec.
  - set (f := fresh (dom σ)).
    set (σ1 := <[f:=array_filter p rows]> σ).
    set (σ2 := <[f:=Js.sort cmp (array_filter p rows)]> σ1).
    set (d := fresh (dom σ2)).
    assert (σ !! f = None) as Hf by apply fresh_unallocated.
    assert (σ2 !! d = None) as Hd by apply fresh_unallocated.
    assert (f ≠ d) as Hfd.
    { intros E. rewrite <- E in Hd. unfold σ2 in Hd.
      by rewrite lookup_insert_eq in Hd. }
    assert (a ≠ f) as Haf by congruence.
    exists f, d, (<[d:=page (Js.sort cmp (array_filter p rows)) cursor]> σ2).
    split.
    { unfold stages, mbind, Heap.M_bind, filteredData, sortedData, data.
      rewrite (heap_filter_spec p σ a rows Ha). fold f σ1.
      rewrite (heap_sort_spec cmp σ1 f (array_filter p rows))
        by apply lookup_insert_eq.
      fold σ2.
      rewrite (heap_slice_spec _ _ σ2 f (Js.sort cmp (array_filter p rows)))
        by apply lookup_insert_eq.
      reflexivity. }
    assert (σ !! d = None) as Hd'.
    { unfold σ2, σ1 in Hd. by rewrite !lookup_insert_ne in Hd. }
    split; [done|]. split; [done|]. split; [done|].
    assert (a ≠ d) as Had by congruence.
    unfold σ2, σ1. split; [|split; [|split]].
    + by rewrite !lookup_insert_ne.
    + rewrite lookup_insert_ne by done. by rewrite lookup_insert_eq.
    + by rewrite lookup_insert_eq.
    + intros b Hbf Hbd. by rewrite !lookup_insert_ne.
Qed.

Lemma sort_stage_sorts_filtered_array_in_place_witness :
  search_results !! 0%nat = Some [counted 1; counted 3; counted 2] ∧
  sortedData by_count_desc 0%nat search_results =
    Some (0%nat,
          <[0%nat:=Js.sort by_count_desc [counted 1; counted 3; counted 2]]>
            search_results).
Proof.
  assert (search_results !! 0%nat = Some [counted 1; counted 3; counted 2])
    as H by reflexivity.
  split; [exact H|].
  exact (proj1 (proj2
           (sort_stage_sorts_filtered_array_in_place
              (λ _, true) by_count_desc search_results 0%nat _ 0 H))).
Defined.

(** C4, as the claim states it, fails: the sort stage changes the array
    the filter stage produced.  Before the sort stage that array holds the
    rows in the order 1, 3, 2; after it the same array holds 3, 2, 1. *)
Lemma sort_stage_mutates_filtered_array :
  ∃ (f : Heap.ref) (σ1 σ2 : gmap nat (list TableDataRow)),
    filteredData (λ _, true) 0%nat search_results = Some (f, σ1) ∧
    σ1 !! f = Some [counted 1; counted 3; counted 2] ∧
    sortedData by_count_desc f σ1 = Some (f, σ2) ∧
    σ2 !! f = Some [counted 3; counted 2; counted 1] ∧
    σ2 !! f ≠ σ1 !! f.
Proof.
  exists 1%nat.
  exists (<[1%nat:=[counted 1; counted 3; counted 2]]> search_results).
  exists (<[1%nat:=[counted 3; counted 2; counted 1]]> search_results).
  split; [vm_compute; reflexivity|].
  split; [vm_compute; reflexivity|].
  split; [vm_compute; reflexivity|].
  split; [vm_compute; reflexivity|].
  rewrite !lookup_insert_eq. intros H.
  apply (f_equal (λ o, (λ l, Qfloor ∘ count_of <$> l) <$> o)) in H.
  vm_compute in H. discriminate.
Qed.

(** ** Selecting a view *)

(** C6, as the code has it.  Selecting a view sets the view parameter to
    the selected view, resets the search query to the empty string and
    removes the page cursor; every other parameter, in particular the
    column filter selections [type] and [image] and the requested sort
    [functionsSort], keeps its value. *)
Theorem onChange_resets_query_and_cursor_only :
  ∀ (option_value : string) (query : gmap string qsval),
    onChange option_value query !! "detailView" = Some (QStr option_value) ∧
    onChange option_value query !! "query" = Some (QStr "") ∧
    onChange option_value query !! "cursor" = None ∧
    onChange option_value query !! "type" = query !! "type" ∧
    onChange option_value query !! "image" = query !! "image" ∧
    onChange option_value query !! "functionsSort" = query !! "functionsSort" ∧
    (∀ k : string,
       k ≠ "detailView" → k ≠ "query" → k ≠ "cursor" →
       onChange option_value query !! k = query !! k).
Proof.
  intros v query.
  assert (∀ k : string,
            k ≠ "detailView" → k ≠ "query" → k ≠ "cursor" →
            onChange v query !! k = query !! k) as Hframe.
  { intros k H1 H2 H3.
    unfold onChange, setGroupByView, setPaginationCursor, setSearchQuery,
      setQuerystringState.
    rewrite lookup_insert_ne, lookup_delete_ne, lookup_insert_ne; done. }
  unfold onChange, setGroupByView, setPaginationCursor, setSearchQuery,
    setQuerystringState in *.
  split; [by rewrite lookup_insert_eq|].
  split; [by rewrite lookup_insert_ne, lookup_delete_ne, lookup_insert_eq|].
  split; [by rewrite lookup_insert_ne, lookup_delete_eq|].
  repeat split; by apply Hframe.
Qed.

Lemma onChange_resets_query_and_cursor_only_witness :
  ("type" : string) ≠ "detailView" ∧ ("type" : string) ≠ "query" ∧
  ("type" : string) ≠ "cursor" ∧
  onChange "package" {["type" := QList ["system"]]} !! "type" =
    ({["type" := QList ["system"]]} : gmap string qsval) !! "type".
Proof.
  assert (("type" : string) ≠ "detailView") as H1 by discriminate.
  assert (("type" : string) ≠ "query") as H2 by discriminate.
  assert (("type" : string) ≠ "cursor") as H3 by discriminate.
  split; [exact H1|]. split; [exact H2|]. split; [exact H3|].
  exact (proj2 (proj2 (proj2 (proj2 (proj2 (proj2
           (onChange_resets_query_and_cursor_only "package"
              {["type" := QList ["system"]]}))))))
           "type" H1 H2 H3).
Defined.

(** C6, as the claim states it, fails: after selecting the view [package]
    the filter on [type] is still active and the requested sort is still
    [count] descending; the state is not the one a view starts from. *)
Lemma onChange_keeps_filters_and_sort :
  onChange "package" symbol_view_query !! "type" = Some (QList ["system"]) ∧
  onChange "package" symbol_view_query !! "functionsSort" =
    Some (QStr "-count") ∧
  ¬ view_defaults (onChange "package" symbol_view_query).
Proof.
  split; [reflexivity|]. split; [reflexivity|].
  intros (_ & H & _). vm_compute in H. discriminate.
Qed.

(** ** Column filters *)

Lemma column_passes_spec (filters : gmap string (list string))
    (row : TableDataRow) (column : string) :
  column_passes filters row column = true ↔
  ∀ selection, filters !! column = Some selection → selection ≠ [] →
               ∃ v, row !! column = Some (CStr v) ∧ v ∈ selection.
Proof.
  unfold column_passes. destruct (filters !! column) as [[|s sel]|] eqn:E.
  - split; [|done]. intros _ selection [= <-] H. by destruct H.
  - destruct (row !! column) as [[v|x]|] eqn:Er.
    + rewrite bool_decide_eq_true. split.
      * intros Hv selection [= <-] _. by exists v.
      * intros H. destruct (H (s :: sel)) as (v' & [= <-] & Hv); done.
    + split; [done|]. intros H.
      destruct (H (s :: sel)) as (v' & [=] & _); done.
    + split; [done|]. intros H.
      destruct (H (s :: sel)) as (v' & [=] & _); done.
  - split; [|done]. by intros _ selection [=].
Qed.

(** C7.  The column filter predicate accepts a row iff, for each of the
    filterable columns [type] and [image] whose selection is not empty,
    the value of the row in that column is in the selection.  A column
    with an empty or unset selection imposes no constraint: with an empty
    selection for [type] the predicate is the constraint of [image] alone,
    and with no selection for [image] either every row passes.  The
    filter stage keeps exactly the rows the predicate accepts. *)
Theorem filterPredicate_accepts_selected_rows :
  ∀ (filters : gmap string (list string)) (row : TableDataRow),
    (filterPredicate filterable filters row = true ↔
     ∀ column selection,
       column ∈ filterable → filters !! column = Some selection →
       selection ≠ [] →
       ∃ v, row !! column = Some (CStr v) ∧ v ∈ selection) ∧
    (filters !! "type" = None ∨ filters !! "type" = Some [] →
     filterPredicate filterable filters row =
       column_passes filters row "image") ∧
    (filters !! "type" = None ∨ filters !! "type" = Some [] →
     filters !! "image" = None ∨ filters !! "image" = Some [] →
     filterPredicate filterable filters row = true) ∧
    (∀ rows : list TableDataRow,
       row ∈ filtered_rows filters rows ↔
       row ∈ rows ∧ filterPredicate filterable filters row = true).
Proof.
  intros filters row. split; [|split; [|split]].
  - unfold filterPredicate. rewrite forallb_forall. split.
    + intros H column selection Hc. apply column_passes_spec.
      apply H. by apply list_elem_of_In.
    + intros H column Hc. apply column_passes_spec.
      intros selection. apply H. by apply list_elem_of_In.
  - intros Ht. unfold filterPredicate, filterable. simpl.
    unfold column_passes at 1. destruct Ht as [-> | ->]; simpl;
      by rewrite andb_true_r.
  - intros Ht Hi. unfold filterPredicate, filterable, column_passes. simpl.
    by destruct Ht as [-> | ->], Hi as [-> | ->].
  - intros rows. unfold filtered_rows, array_filter.
    rewrite list_elem_of_In, filter_In, <- list_elem_of_In. done.
Qed.

Lemma filterPredicate_accepts_selected_rows_witness :
  (({["type" := []]} : gmap string (list string)) !! "type" = None ∨
   ({["type" := []]} : gmap string (list string)) !! "type" = Some []) ∧
  (({["type" := []]} : gmap string (list string)) !! "image" = None ∨
   ({["type" := []]} : gmap string (list string)) !! "image" = Some []) ∧
  filterPredicate filterable {["type" := []]} system_row = true.
Proof.
  assert (({["type" := []]} : gmap string (list string)) !! "type" = None ∨
          ({["type" := []]} : gmap string (list string)) !! "type" = Some [])
    as Ht by (right; reflexivity).
  assert (({["type" := []]} : gmap string (list string)) !! "image" = None ∨
          ({["type" := []]} : gmap string (list string)) !! "image" = Some [])
    as Hi by (left; reflexivity).
  split; [exact Ht|]. split; [exact Hi|].
  exact (proj1 (proj2 (proj2
           (filterPredicate_accepts_selected_rows {["type" := []]} system_row)))
           Ht Hi).
Defined.

(** ** Resolving a view name *)

Section RegistryFacts.
Variable t : string → string.
Variable aggregate :
  list Frame → list string → list AggregateColumnConfig → list TableDataRow.

(** The name of a view of the registry resolves to that view. *)
Lemma groupByView_known (k : string) (v : GroupByOptions) :
  GROUP_BY_OPTIONS t aggregate !! k = Some v →
  groupByView t aggregate k = View v.
Proof.
  intros H. unfold groupByView, GROUP_BY_OPTIONS_get. by rewrite H.
Qed.

(** A name that is neither a view of the registry nor a property of
    [Object.prototype] resolves to the occurrence view. *)
Lemma groupByView_fallback (k : string) :
  GROUP_BY_OPTIONS t aggregate !! k = None →
  k ∉ Object_prototype →
  groupByView t aggregate k = View (occurrence t).
Proof.
  intros H Hp. unfold groupByView, GROUP_BY_OPTIONS_get. rewrite H.
  by rewrite bool_decide_eq_false_2.
Qed.

Lemma groupByView_names :
  groupByView t aggregate "occurrence" = View (occurrence t) ∧
  groupByView t aggregate "symbol" = View (by_symbol t aggregate) ∧
  groupByView t aggregate "package" = View (by_package t aggregate) ∧
  groupByView t aggregate "file" = View (by_file t aggregate) ∧
  groupByView t aggregate "flamegraph" = View (occurrence t).
Proof. repeat split. Qed.
End RegistryFacts.

(** C10, on the input where the code departs from it.  The name
    [constructor] is not a view of the registry, yet
    [GROUP_BY_OPTIONS["constructor"]] is the member the object literal
    inherits from [Object.prototype]; it is not [undefined], so [??] does
    not fall back and [groupByView] is not the occurrence view. *)
Theorem groupByView_constructor_is_inherited :
  ∀ (t : string → string)
    (aggregate : list Frame → list string → list AggregateColumnConfig →
                 list TableDataRow),
    GROUP_BY_OPTIONS t aggregate !! "constructor" = None ∧
    groupByView t aggregate "constructor" = Inherited "constructor" ∧
    groupByView t aggregate "constructor" ≠ View (occurrence t).
Proof.
  intros t aggregate. split; [reflexivity|]. split; [reflexivity|].
  discriminate.
Qed.

(** ** The sort of the transactions table *)

Section TransactionsSort.
Import ProfileTransactionsTable.

Lemma count_sortable : "count()" ∈ SORTABLE_COLUMNS.
Proof. apply (bool_decide_eq_true_1 _). vm_compute. reflexivity. Qed.

Lemma defaultSort_count_desc : defaultSort = ("count()", desc).
Proof. vm_compute. reflexivity. Qed.

(** A request that names an unknown column is not the absent request. *)
Lemma unknown_request_decoded (props_sort : string) :
  requested_column props_sort ∉ SORTABLE_COLUMNS →
  decodeScalar props_sort "-count()" = props_sort.
Proof.
  unfold requested_column, decodeScalar.
  destruct (String.eqb_spec props_sort "") as [->|_]; [|done].
  intros H. destruct H. apply count_sortable.
Qed.
End TransactionsSort.

(** C5, as the code has it.  A sort request that names a column outside
    [SORTABLE_COLUMNS] is decoded to the default column [count()]; the
    direction is the one the request carries, descending iff the request
    starts with [-].  Hence the decoded sort is the default sort, [count()]
    descending, exactly when the request is a descending one. *)
Theorem unknown_sort_column_falls_back_to_count :
  ∀ props_sort : string,
    ProfileTransactionsTable.requested_column props_sort
      ∉ ProfileTransactionsTable.SORTABLE_COLUMNS →
    ProfileTransactionsTable.sort props_sort =
      ("count()",
       if startsWith props_sort "-" then ProfileTransactionsTable.desc
       else ProfileTransactionsTable.asc) ∧
    ProfileTransactionsTable.defaultSort =
      ("count()", ProfileTransactionsTable.desc) ∧
    (ProfileTransactionsTable.sort props_sort =
       ProfileTransactionsTable.defaultSort ↔
     startsWith props_sort "-" = true).
Proof.
  intros s H.
  assert (ProfileTransactionsTable.sort s =
          ("count()",
           if startsWith s "-" then ProfileTransactionsTable.desc
           else ProfileTransactionsTable.asc)) as Hs.
  { pose proof (unknown_request_decoded s H) as Hd.
    unfold ProfileTransactionsTable.sort.
    unfold ProfileTransactionsTable.requested_column in H.
    rewrite Hd in *.
    destruct (startsWith s "-"); by rewrite bool_decide_eq_false_2. }
  rewrite Hs, defaultSort_count_desc. split; [done|]. split; [done|].
  destruct (startsWith s "-"); split; (done || intros [=]).
Qed.

Lemma unknown_sort_column_falls_back_to_count_witness :
  (ProfileTransactionsTable.requested_column "-duration"
     ∉ ProfileTransactionsTable.SORTABLE_COLUMNS) ∧
  ProfileTransactionsTable.sort "-duration" =
    ("count()", ProfileTransactionsTable.desc).
Proof.
  assert (ProfileTransactionsTable.requested_column "-duration"
            ∉ ProfileTransactionsTable.SORTABLE_COLUMNS) as H
    by (apply (bool_decide_eq_false_1 _); vm_compute; reflexivity).
  split; [exact H|].
  exact (proj1 (unknown_sort_column_falls_back_to_count "-duration" H)).
Defined.

(** C5, as the claim states it, fails: the request [duration] names an
    unknown column and is decoded to [count()] ascending, which is not
    the default sort, [count()] descending. *)
Lemma unknown_ascending_request_is_not_default :
  (ProfileTransactionsTable.requested_column "duration"
     ∉ ProfileTransactionsTable.SORTABLE_COLUMNS) ∧
  ProfileTransactionsTable.sort "duration" =
    ("count()", ProfileTransactionsTable.asc) ∧
  ProfileTransactionsTable.defaultSort =
    ("count()", ProfileTransactionsTable.desc) ∧
  ProfileTransactionsTable.sort "duration" ≠
    ProfileTransactionsTable.defaultSort.
Proof.
  split; [apply (bool_decide_eq_false_1 _); vm_compute; reflexivity|].
  split; [vm_compute; reflexivity|].
  split; [vm_compute; reflexivity|].
  vm_compute. discriminate.
Qed.

(** * Further properties of the code *)

Import MoreSamples.

(** ** The quantile estimator, order and bounds *)

Section QuantileOrder.









End QuantileOrder.



(** ** The pager and the stages before it *)

(** X4.  Whatever the cursor, negative ones included, a page holds at
    most [RESULTS_PER_PAGE] rows and is a run of consecutive rows of the
    sorted rows, in their order. *)
Theorem page_is_bounded_run :
  ∀ (A : Type) (rows : list A) (cursor : Z),
    Z.of_nat (length (page rows cursor)) ≤ RESULTS_PER_PAGE ∧
    ∃ before after : list A, rows = before ++ page rows cursor ++ after.
Proof.
  intros A rows cursor. unfold page, RESULTS_PER_PAGE, slice. split.
  - rewrite length_take, length_drop. unfold relative_index.
    destruct (Z.ltb_spec cursor 0), (Z.ltb_spec (cursor + 50) 0); lia.
  - match goal with
    | |- context [take ?count (drop ?from rows)] =>
        exists (take from rows), (drop count (drop from rows))
    end.
    by rewrite take_drop, take_drop.
Qed.

Lemma pages_concat_take {A : Type} (rows : list A) (k : nat) :
  concat ((λ i, page rows (RESULTS_PER_PAGE * Z.of_nat i)) <$> seq 0 k) =
  take (50 * k) rows.
Proof.
  induction k as [|k IH].
  - by rewrite Nat.mul_0_r.
  - rewrite seq_S, fmap_app, concat_app, IH. simpl. rewrite app_nil_r.
    unfold page, RESULTS_PER_PAGE. rewrite slice_nonneg by lia.
    replace (Z.to_nat (50 * Z.of_nat k + 50 - 50 * Z.of_nat k)) with 50%nat
      by lia.
    replace (Z.to_nat (50 * Z.of_nat k)) with (50 * k)%nat by lia.
    rewrite take_take_drop. f_equal. lia.
Qed.

(** X5.  The pages at the cursors 0, 50, 100, ... are consecutive and
    together make up the rows: concatenating as many pages as it takes to
    reach the end gives the rows back, each row once and in order. *)
Theorem pages_cover_rows :
  ∀ (A : Type) (rows : list A) (k : nat),
    (length rows ≤ 50 * k)%nat →
    concat ((λ i, page rows (RESULTS_PER_PAGE * Z.of_nat i)) <$> seq 0 k) =
    rows.
Proof.
  intros A rows k Hk. rewrite pages_concat_take. by apply take_ge.
Qed.

Lemma pages_cover_rows_witness :
  (length (seqZ 0 120) ≤ 50 * 3)%nat ∧
  concat ((λ i, page (seqZ 0 120) (RESULTS_PER_PAGE * Z.of_nat i))
            <$> seq 0 3) = seqZ 0 120.
Proof.
  assert (length (seqZ 0 120) ≤ 50 * 3)%nat as H
    by (vm_compute; repeat constructor).
  split; [exact H|]. exact (pages_cover_rows Z (seqZ 0 120) 3 H).
Defined.

Lemma page_subseteq {A : Type} (rows : list A) (cursor : Z) :
  page rows cursor ⊆ rows.
Proof.
  unfold page, slice. etrans; [apply subseteq_take|apply subseteq_drop].
Qed.

Lemma stages_run (filterPredicate : TableDataRow → bool)
    (sortCompareFn : TableDataRow → TableDataRow → Qc)
    (σ : gmap nat (list TableDataRow)) (a : Heap.ref)
    (rows : list TableDataRow) (cursor : Z) :
  σ !! a = Some rows →
  let filtered := array_filter filterPredicate rows in
  let sorted := Js.sort sortCompareFn filtered in
  let f := fresh (dom σ) in
  let σ2 := <[f:=sorted]> (<[f:=filtered]> σ) in
  let d := fresh (dom σ2) in
  stages filterPredicate sortCompareFn a cursor σ =
    Some ((f, f, d), <[d:=page sorted cursor]> σ2).
Proof.
  intros Ha. cbv zeta.
  unfold stages, mbind, Heap.M_bind, filteredData, sortedData, data.
  rewrite (heap_filter_spec filterPredicate σ a rows Ha).
  rewrite (heap_sort_spec sortCompareFn _ _ (array_filter filterPredicate rows))
    by apply lookup_insert_eq.
  rewrite (heap_slice_spec _ _ _ _
             (Js.sort sortCompareFn (array_filter filterPredicate rows)))
    by apply lookup_insert_eq.
  reflexivity.
Qed.

(** X6.  After a pass over the stages the array held by [sortedData] is a
    rearrangement of exactly the search results that pass the filter, and
    every row of the page held by [data] is a search result that passes
    the filter. *)
Theorem stages_show_filtered_rows :
  ∀ (filterPredicate : TableDataRow → bool)
    (sortCompareFn : TableDataRow → TableDataRow → Qc)
    (σ : gmap nat (list TableDataRow)) (a : Heap.ref)
    (rows : list TableDataRow) (cursor : Z),
    σ !! a = Some rows →
    ∃ (f s d : Heap.ref) (σ' : gmap nat (list TableDataRow))
      (sorted shown : list TableDataRow),
      stages filterPredicate sortCompareFn a cursor σ = Some ((f, s, d), σ') ∧
      σ' !! s = Some sorted ∧ σ' !! d = Some shown ∧
      sorted ≡ₚ array_filter filterPredicate rows ∧
      (∀ r, r ∈ sorted ↔ r ∈ rows ∧ filterPredicate r = true) ∧
      (∀ r, r ∈ shown → r ∈ rows ∧ filterPredicate r = true).
Proof.
  intros p cmp σ a rows cursor Ha.
  pose proof (stages_run p cmp σ a rows cursor Ha) as Hrun. cbv zeta in Hrun.
  set (filtered := array_filter p rows) in *.
  set (sorted := Js.sort cmp filtered) in *.
  set (f := fresh (dom σ)) in *.
  set (σ2 := <[f:=sorted]> (<[f:=filtered]> σ)) in *.
  set (d := fresh (dom σ2)) in *.
  assert (σ2 !! d = None) as Hd by apply fresh_unallocated.
  assert (f ≠ d) as Hfd.
  { intros E. rewrite <- E in Hd. unfold σ2 in Hd.
    by rewrite lookup_insert_eq in Hd. }
  assert (∀ r, r ∈ sorted ↔ r ∈ rows ∧ p r = true) as Hsorted.
  { intros r. unfold sorted. rewrite sort_perm. unfold filtered, array_filter.
    by rewrite list_elem_of_In, filter_In, <- list_elem_of_In. }
  exists f, f, d, (<[d:=page sorted cursor]> σ2), sorted, (page sorted cursor).
  split; [done|]. split.
  { rewrite lookup_insert_ne by done. unfold σ2. by rewrite lookup_insert_eq. }
  split; [by rewrite lookup_insert_eq|].
  split; [apply sort_perm|]. split; [done|].
  intros r Hr. apply Hsorted. by apply (page_subseteq sorted cursor).
Qed.

Lemma stages_show_filtered_rows_witness :
  search_results !! 0%nat = Some [counted 1; counted 3; counted 2] ∧
  ∃ (f s d : Heap.ref) (σ' : gmap nat (list TableDataRow))
    (sorted shown : list TableDataRow),
    stages (λ _, true) by_count_desc 0%nat 0 search_results =
      Some ((f, s, d), σ') ∧
    σ' !! s = Some sorted ∧ σ' !! d = Some shown ∧
    sorted ≡ₚ array_filter (λ _, true) [counted 1; counted 3; counted 2] ∧
    (∀ r, r ∈ sorted ↔
          r ∈ [counted 1; counted 3; counted 2] ∧ (λ _, true) r = true) ∧
    (∀ r, r ∈ shown →
          r ∈ [counted 1; counted 3; counted 2] ∧ (λ _, true) r = true).
Proof.
  assert (search_results !! 0%nat = Some [counted 1; counted 3; counted 2])
    as H by reflexivity.
  split; [exact H|].
  exact (stages_show_filtered_rows (λ _, true) by_count_desc search_results
           0%nat _ 0 H).
Defined.

(** ** The view registry and the cells of the table *)

Section RegistryInvariants.
Variable t : string → string.
Variable aggregate :
  list Frame → list string → list AggregateColumnConfig → list TableDataRow.

Lemma GROUP_BY_OPTIONS_lookup_Some (k : string) (v : GroupByOptions) :
  GROUP_BY_OPTIONS t aggregate !! k = Some v →
  (k = "occurrence" ∧ v = occurrence t) ∨
  (k = "symbol" ∧ v = by_symbol t aggregate) ∨
  (k = "package" ∧ v = by_package t aggregate) ∨
  (k = "file" ∧ v = by_file t aggregate).
Proof.
  unfold GROUP_BY_OPTIONS. rewrite !lookup_insert_Some, lookup_empty.
  intros [[<- <-]|[_ [[<- <-]|[_ [[<- <-]|[_ [[<- <-]|[_ [=]]]]]]]]]; auto.
Qed.

Lemma GROUP_BY_OPTIONS_lookup_None (k : string) :
  k ∉ ["occurrence"; "symbol"; "package"; "file"] →
  GROUP_BY_OPTIONS t aggregate !! k = None.
Proof.
  intros H. unfold GROUP_BY_OPTIONS.
  rewrite !lookup_insert_None, lookup_empty. set_solver.
Qed.
End RegistryInvariants.

(** Splits a goal about a view of the registry into the four views. *)
Ltac registry_cases H :=
  apply GROUP_BY_OPTIONS_lookup_Some in H;
  destruct H as [[-> ->]|[[-> ->]|[[-> ->]|[-> ->]]]].

(** Decides a closed decidable proposition by evaluation. *)
Ltac decide_closed := apply (bool_decide_unpack _); vm_compute; exact I.

(** X7.  Every view of the registry is well formed: it is registered
    under the value of its option, its default sort column is one of its
    sortable columns, its sortable and search columns are columns of the
    view, its columns are distinct column keys, each with a definition in
    [COLUMNS] under that key (so [columnOrder] has no [undefined] entry),
    and the columns handed to the table head as sortable are the sortable
    columns of the view. *)
Theorem registry_views_well_formed :
  ∀ (t : string → string)
    (aggregate : list Frame → list string → list AggregateColumnConfig →
                 list TableDataRow)
    (COL_WIDTH_UNDEFINED : Z) (k : string) (v : GroupByOptions),
    GROUP_BY_OPTIONS t aggregate !! k = Some v →
    option_value v = k ∧
    (sort_defaultSort v).1 ∈ sort_sortableColumns v ∧
    sort_sortableColumns v ⊆ columns v ∧
    search_key v ⊆ columns v ∧
    columns v ⊆ tableColumnKey ∧
    NoDup (columns v) ∧
    head_sortableColumns v = list_to_set (sort_sortableColumns v) ∧
    Forall (λ col, ∃ c : TableColumn,
                     col = Some c ∧ column_key c ∈ columns v ∧
                     COLUMNS t COL_WIDTH_UNDEFINED !! column_key c = Some c)
           (columnOrder t COL_WIDTH_UNDEFINED v).
Proof.
  intros t aggregate W k v H.
  registry_cases H; (split; [reflexivity|]);
    (split; [decide_closed|]); (split; [decide_closed|]);
    (split; [decide_closed|]); (split; [decide_closed|]);
    (split; [decide_closed|]); (split; [reflexivity|]);
    unfold columnOrder; simpl;
    repeat (constructor; [eexists; split; [reflexivity|];
                          split; [decide_closed|reflexivity]|]);
    constructor.
Qed.

Lemma registry_views_well_formed_witness :
  GROUP_BY_OPTIONS id (λ _ _ _, []) !! "package" =
    Some (by_package id (λ _ _ _, [])) ∧
  option_value (by_package id (λ _ _ _, [])) = "package" ∧
  (sort_defaultSort (by_package id (λ _ _ _, []))).1
    ∈ sort_sortableColumns (by_package id (λ _ _ _, [])).
Proof.
  assert (GROUP_BY_OPTIONS id (λ _ _ _, []) !! "package" =
            Some (by_package id (λ _ _ _, []))) as H by reflexivity.
  split; [exact H|].
  pose proof (registry_views_well_formed id (λ _ _ _, []) (-1) _ _ H) as W.
  exact (conj (proj1 W) (proj1 (proj2 W))).
Defined.

(** X8.  Selecting the option of a view of the registry makes that view
    the one the table resolves: after [onChange] with the value of the
    option, the view key read from the query string is the key the view
    is registered under and [groupByView] is that view.  A query string
    without the parameter resolves to the occurrence view. *)
Theorem selecting_an_option_resolves_its_view :
  ∀ (t : string → string)
    (aggregate : list Frame → list string → list AggregateColumnConfig →
                 list TableDataRow)
    (query : gmap string qsval),
    (∀ (k : string) (v : GroupByOptions),
       GROUP_BY_OPTIONS t aggregate !! k = Some v →
       groupByViewKey (onChange (option_value v) query) = k ∧
       groupByView t aggregate
         (groupByViewKey (onChange (option_value v) query)) = View v) ∧
    (query !! "detailView" = None →
     groupByView t aggregate (groupByViewKey query) = View (occurrence t)).
Proof.
  intros t aggregate query. split.
  - intros k v H.
    assert (groupByViewKey (onChange (option_value v) query) = option_value v)
      as ->.
    { unfold groupByViewKey, useQuerystringState, onChange, setGroupByView,
        setQuerystringState. by rewrite lookup_insert_eq. }
    assert (option_value v = k) as ->.
    { pose proof H as H'. by registry_cases H'. }
    split; [done|]. unfold groupByView, GROUP_BY_OPTIONS_get. by rewrite H.
  - intros H. unfold groupByViewKey, useQuerystringState. by rewrite H.
Qed.

Lemma selecting_an_option_resolves_its_view_witness :
  GROUP_BY_OPTIONS id (λ _ _ _, []) !! "file" =
    Some (by_file id (λ _ _ _, [])) ∧
  groupByView id (λ _ _ _, [])
    (groupByViewKey
       (onChange (option_value (by_file id (λ _ _ _, [])))
          symbol_view_query)) = View (by_file id (λ _ _ _, [])).
Proof.
  assert (GROUP_BY_OPTIONS id (λ _ _ _, []) !! "file" =
            Some (by_file id (λ _ _ _, []))) as H by reflexivity.
  split; [exact H|].
  exact (proj2 (proj1 (selecting_an_option_resolves_its_view
                         id (λ _ _ _, []) symbol_view_query) _ _ H)).
Defined.

(** X9.  Every view name other than the four names of the registry and
    the twelve property names of [Object.prototype] resolves to the
    occurrence view. *)
Theorem unknown_view_name_resolves_to_occurrence :
  ∀ (t : string → string)
    (aggregate : list Frame → list string → list AggregateColumnConfig →
                 list TableDataRow)
    (k : string),
    k ∉ ["occurrence"; "symbol"; "package"; "file"] →
    k ∉ Object_prototype →
    groupByView t aggregate k = View (occurrence t).
Proof.
  intros t aggregate k Hk Hp.
  unfold groupByView, GROUP_BY_OPTIONS_get.
  rewrite (GROUP_BY_OPTIONS_lookup_None t aggregate k Hk).
  by rewrite bool_decide_eq_false_2.
Qed.

Lemma unknown_view_name_resolves_to_occurrence_witness :
  (("flamegraph" : string) ∉ ["occurrence"; "symbol"; "package"; "file"]) ∧
  (("flamegraph" : string) ∉ Object_prototype) ∧
  groupByView id (λ _ _ _, []) "flamegraph" = View (occurrence id).
Proof.
  assert (("flamegraph" : string)
            ∉ ["occurrence"; "symbol"; "package"; "file"]) as H
    by (apply (bool_decide_eq_false_1 _); vm_compute; reflexivity).
  assert (("flamegraph" : string) ∉ Object_prototype) as Hp
    by (apply (bool_decide_eq_false_1 _); vm_compute; reflexivity).
  split; [exact H|]. split; [exact Hp|].
  exact (unknown_view_name_resolves_to_occurrence id (λ _ _ _, []) _ H Hp).
Defined.

(** X10.  In every view of the registry a column is rendered in a
    [NumberContainer] exactly when the view lists it as right aligned;
    the table head is told that the same columns are right aligned. *)
Theorem number_cells_are_the_right_aligned_columns :
  ∀ (t : string → string)
    (aggregate : list Frame → list string → list AggregateColumnConfig →
                 list TableDataRow)
    (k : string) (v : GroupByOptions) (column : string)
    (dataRow : TableDataRow),
    GROUP_BY_OPTIONS t aggregate !! k = Some v →
    column ∈ columns v →
    (is_NumberContainer (ProfilingFunctionsTableCell t column dataRow) = true ↔
     column ∈ rightAlignedColumns v) ∧
    (column ∈ rightAlignedColumns v ↔ column ∈ head_rightAlignedColumns v).
Proof.
  intros t aggregate k v column dataRow H Hc.
  split; [|unfold head_rightAlignedColumns; by rewrite elem_of_list_to_set].
  registry_cases H; simpl in Hc;
    repeat (apply elem_of_cons in Hc as [->|Hc]);
    try (by apply elem_of_nil in Hc);
    (split; [intros E; (decide_closed || (vm_compute in E; discriminate))
            |intros E; (reflexivity ||
                        (exfalso; revert E;
                         apply (bool_decide_eq_false_1 _);
                         vm_compute; reflexivity))]).
Qed.

Lemma number_cells_are_the_right_aligned_columns_witness :
  GROUP_BY_OPTIONS id (λ _ _ _, []) !! "symbol" =
    Some (by_symbol id (λ _ _ _, [])) ∧
  ("p95" : string) ∈ columns (by_symbol id (λ _ _ _, [])) ∧
  (is_NumberContainer (ProfilingFunctionsTableCell id "p95" system_row) = true ↔
   ("p95" : string) ∈ rightAlignedColumns (by_symbol id (λ _ _ _, []))).
Proof.
  assert (GROUP_BY_OPTIONS id (λ _ _ _, []) !! "symbol" =
            Some (by_symbol id (λ _ _ _, []))) as H by reflexivity.
  assert (("p95" : string) ∈ columns (by_symbol id (λ _ _ _, []))) as Hc
    by (apply (bool_decide_unpack _); vm_compute; exact I).
  split; [exact H|]. split; [exact Hc|].
  exact (proj1 (number_cells_are_the_right_aligned_columns
                  id (λ _ _ _, []) _ _ "p95" system_row H Hc)).
Defined.

(** ** Searching and the labels of the filters *)

(** X11.  A search writes the search string to the query, removes the
    page cursor and leaves every other parameter as it was; the selected
    view, the column filters and the requested sort are kept. *)
Theorem handleSearch_resets_cursor_only :
  ∀ (searchString : string) (query : gmap string qsval),
    handleSearch searchString query !! "query" = Some (QStr searchString) ∧
    handleSearch searchString query !! "cursor" = None ∧
    groupByViewKey (handleSearch searchString query) = groupByViewKey query ∧
    (∀ k : string,
       k ≠ "query" → k ≠ "cursor" →
       handleSearch searchString query !! k = query !! k).
Proof.
  intros s query.
  assert (∀ k : string,
            k ≠ "query" → k ≠ "cursor" →
            handleSearch s query !! k = query !! k) as Hframe.
  { intros k H1 H2.
    unfold handleSearch, setPaginationCursor, setSearchQuery,
      setQuerystringState.
    by rewrite lookup_delete_ne, lookup_insert_ne. }
  split; [|split; [|split; [|done]]].
  - unfold handleSearch, setPaginationCursor, setSearchQuery,
      setQuerystringState.
    by rewrite lookup_delete_ne, lookup_insert_eq.
  - unfold handleSearch, setPaginationCursor, setQuerystringState.
    by rewrite lookup_delete_eq.
  - unfold groupByViewKey, useQuerystringState. by rewrite Hframe.
Qed.

Lemma handleSearch_resets_cursor_only_witness :
  ("functionsSort" : string) ≠ "query" ∧
  ("functionsSort" : string) ≠ "cursor" ∧
  handleSearch "main" symbol_view_query !! "functionsSort" =
    symbol_view_query !! "functionsSort".
Proof.
  assert (("functionsSort" : string) ≠ "query") as H1 by discriminate.
  assert (("functionsSort" : string) ≠ "cursor") as H2 by discriminate.
  split; [exact H1|]. split; [exact H2|].
  exact (proj2 (proj2 (proj2
           (handleSearch_resets_cursor_only "main" symbol_view_query)))
           "functionsSort" H1 H2).
Defined.

(** X12.  The label of a filter selector is [All] when no selection is
    set and when the selection is an arrangement of the offered values.
    For an array selection the label compares sizes only: it is [All] iff
    the selection has as many entries as there are offered values, so an
    empty selection is labelled [All] only when no value is offered. *)
Theorem triggerLabel_All :
  ∀ (t : string → string) (values : list string),
    triggerLabel t None values = Some (t "All") ∧
    (∀ l : list string,
       l ≡ₚ values → triggerLabel t (Some (QList l)) values = Some (t "All")) ∧
    (∀ l : list string,
       triggerLabel t (Some (QList l)) values = Some (t "All") ↔
       length l = length values) ∧
    (triggerLabel t (Some (QList [])) values = Some (t "All") ↔ values = []).
Proof.
  intros t values.
  assert (∀ l : list string,
            triggerLabel t (Some (QList l)) values = Some (t "All") ↔
            length l = length values) as Hlen.
  { intros l. unfold triggerLabel. simpl.
    destruct (Nat.eqb_spec (length l) (length values)); split;
      (done || intros [=]). }
  split; [done|]. split; [|split; [done|]].
  - intros l Hl. apply Hlen. by rewrite Hl.
  - rewrite Hlen. simpl. split.
    + intros H. by destruct values.
    + by intros ->.
Qed.

Lemma triggerLabel_All_witness :
  ["system"; "application"] ≡ₚ ["application"; "system"] ∧
  triggerLabel id (Some (QList ["system"; "application"]))
    ["application"; "system"] = Some "All".
Proof.
  assert (["system"; "application"] ≡ₚ ["application"; "system"]) as H
    by apply Permutation_swap.
  split; [exact H|].
  exact (proj1 (proj2 (triggerLabel_All id ["application"; "system"]))
           ["system"; "application"] H).
Defined.

(** ** The transactions table *)

Section TransactionsFacts.
Import ProfileTransactionsTable.

Lemma SORTABLE_COLUMNS_elem (c : string) :
  c ∈ SORTABLE_COLUMNS →
  c ∈ ["project"; "transaction"; "count()"; "p50()"; "p75()"; "p90()";
       "p95()"; "p99()"; "last_seen()"].
Proof. unfold SORTABLE_COLUMNS. by rewrite elem_of_list_to_set. Qed.
End TransactionsFacts.

(** Splits a goal about a sortable column into the nine columns. *)
Ltac sortable_cases H :=
  apply SORTABLE_COLUMNS_elem in H;
  repeat (apply elem_of_cons in H as [->|H]);
  [..|by apply elem_of_nil in H].

(** X13.  Whatever the request, the decoded sort names a sortable
    column, and it is descending exactly when the request, or the default
    that stands for an empty request, starts with [-]. *)
Theorem decoded_sort_is_sortable :
  ∀ props_sort : string,
    (ProfileTransactionsTable.sort props_sort).1
      ∈ ProfileTransactionsTable.SORTABLE_COLUMNS ∧
    ((ProfileTransactionsTable.sort props_sort).2 =
       ProfileTransactionsTable.desc ↔
     startsWith
       (ProfileTransactionsTable.decodeScalar props_sort "-count()") "-" =
       true) ∧
    (props_sort = "" →
     ProfileTransactionsTable.sort props_sort =
       ("count()", ProfileTransactionsTable.desc)).
Proof.
  intros s. unfold ProfileTransactionsTable.sort.
  set (column := ProfileTransactionsTable.decodeScalar s "-count()").
  split; [|split].
  - destruct (startsWith column "-"); simpl;
      case_bool_decide; simpl; (done || apply count_sortable).
  - destruct (startsWith column "-"); simpl; split; (done || intros [=]).
  - intros ->. reflexivity.
Qed.

Lemma decoded_sort_is_sortable_witness :
  ("" : string) = "" ∧
  ProfileTransactionsTable.sort "" =
    ("count()", ProfileTransactionsTable.desc).
Proof.
  assert (("" : string) = "") as H by reflexivity.
  split; [exact H|].
  exact (proj2 (proj2 (decoded_sort_is_sortable "")) H).
Defined.

(** X14.  A request for a sortable column is decoded to that column:
    the column name alone means ascending, the name after [-] means
    descending. *)
Theorem sortable_request_is_decoded :
  ∀ column : string,
    column ∈ ProfileTransactionsTable.SORTABLE_COLUMNS →
    ProfileTransactionsTable.sort column =
      (column, ProfileTransactionsTable.asc) ∧
    ProfileTransactionsTable.sort ("-" ++ column) =
      (column, ProfileTransactionsTable.desc).
Proof.
  intros column H. sortable_cases H; split; vm_compute; reflexivity.
Qed.

Lemma sortable_request_is_decoded_witness :
  ("last_seen()" : string) ∈ ProfileTransactionsTable.SORTABLE_COLUMNS ∧
  ProfileTransactionsTable.sort "-last_seen()" =
    ("last_seen()", ProfileTransactionsTable.desc).
Proof.
  assert (("last_seen()" : string)
            ∈ ProfileTransactionsTable.SORTABLE_COLUMNS) as H
    by (apply (bool_decide_eq_true_1 _); vm_compute; reflexivity).
  split; [exact H|].
  exact (proj2 (sortable_request_is_decoded "last_seen()" H)).
Defined.

(** X15.  The link of the head of a sortable column changes only the
    parameter [sort] of the location, and following it sorts by that
    column: descending, unless the table is sorted by that column
    descending already, in which case ascending.  Following the link of
    the same column again reverses the direction. *)
Theorem generateSortLink_toggles :
  ∀ (Rest : Type) (location : ProfileTransactionsTable.Location Rest)
    (current : string * ProfileTransactionsTable.SortOrder)
    (column : string),
    column ∈ ProfileTransactionsTable.SORTABLE_COLUMNS →
    let link :=
      ProfileTransactionsTable.generateSortLink location current column in
    let request :=
      ProfileTransactionsTable.sort_parameter current column in
    let next := ProfileTransactionsTable.sort request in
    let again :=
      ProfileTransactionsTable.sort
        (ProfileTransactionsTable.sort_parameter next column) in
    ProfileTransactionsTable.location_rest link =
      ProfileTransactionsTable.location_rest location ∧
    ProfileTransactionsTable.location_query link !! "sort" =
      Some (QStr request) ∧
    (∀ k : string,
       k ≠ "sort" →
       ProfileTransactionsTable.location_query link !! k =
         ProfileTransactionsTable.location_query location !! k) ∧
    (current = (column, ProfileTransactionsTable.desc) →
     next = (column, ProfileTransactionsTable.asc)) ∧
    (current ≠ (column, ProfileTransactionsTable.desc) →
     next = (column, ProfileTransactionsTable.desc)) ∧
    again.1 = column ∧ again.2 ≠ next.2.
Proof.
  intros Rest location [key order] column H. cbv zeta.
  split; [reflexivity|]. split; [simpl; by rewrite lookup_insert_eq|].
  split; [intros k Hk; simpl; by rewrite lookup_insert_ne|].
  unfold ProfileTransactionsTable.sort_parameter. simpl.
  destruct (String.eqb_spec column key) as [<-|Hne].
  - destruct order; simpl.
    + split; [intros [=]|]. split; [intros _|];
        sortable_cases H; vm_compute; (repeat split); discriminate.
    + split; [intros _|]. 2: split; [intros E; by destruct E|].
      all: sortable_cases H; vm_compute; (repeat split); discriminate.
  - simpl. split; [intros [= E]; by destruct Hne|]. split; [intros _|];
      sortable_cases H; vm_compute; (repeat split); discriminate.
Qed.

Lemma generateSortLink_toggles_witness :
  ("p75()" : string) ∈ ProfileTransactionsTable.SORTABLE_COLUMNS ∧
  ProfileTransactionsTable.sort
    (ProfileTransactionsTable.sort_parameter
       ("p75()", ProfileTransactionsTable.desc) "p75()") =
    ("p75()", ProfileTransactionsTable.asc).
Proof.
  assert (("p75()" : string) ∈ ProfileTransactionsTable.SORTABLE_COLUMNS)
    as H by (apply (bool_decide_eq_true_1 _); vm_compute; reflexivity).
  split; [exact H|].
  exact (proj1 (proj2 (proj2 (proj2
           (generateSortLink_toggles unit
              {| ProfileTransactionsTable.location_rest := ();
                 ProfileTransactionsTable.location_query := ∅ |}
              ("p75()", ProfileTransactionsTable.desc) "p75()" H))))
           eq_refl).
Defined.

(** X16.  The table has one row per transaction, in the order of the
    transactions.  The row of a transaction carries its name and its
    count; its project is a project of the list whose id is the project
    id of the transaction, and the transaction cell links to the summary
    of that project; when no project has that id the row has no project
    and the cell is the plain name. *)
Theorem transactions_rows :
  ∀ (Query Route : Type)
    (generateProfileSummaryRouteWithQuery :
       Query → string → string → string → Route)
    (query : Query) (organization_slug : string)
    (projects : list ProfileTransactionsTable.Project)
    (props_transactions : list ProfileTransactionsTable.ProfileTransaction),
    let rows :=
      ProfileTransactionsTable.transactions Query Route
        generateProfileSummaryRouteWithQuery query organization_slug
        projects props_transactions in
    length rows = length props_transactions ∧
    ∀ (i : nat) (transaction : ProfileTransactionsTable.ProfileTransaction),
      props_transactions !! i = Some transaction →
      ∃ row,
        rows !! i = Some row ∧
        ProfileTransactionsTable.row_transactionName Route row =
          ProfileTransactionsTable.name transaction ∧
        ProfileTransactionsTable.row_count Route row =
          ProfileTransactionsTable.profiles_count transaction ∧
        match ProfileTransactionsTable.row_project Route row with
        | Some project =>
            project ∈ projects ∧
            ProfileTransactionsTable.id project =
              ProfileTransactionsTable.project_id transaction ∧
            ProfileTransactionsTable.row_transaction Route row =
              ProfileTransactionsTable.TransactionLink Route
                (generateProfileSummaryRouteWithQuery query organization_slug
                   (ProfileTransactionsTable.slug project)
                   (ProfileTransactionsTable.name transaction))
                (ProfileTransactionsTable.name transaction)
        | None =>
            (∀ project, project ∈ projects →
                        ProfileTransactionsTable.id project ≠
                          ProfileTransactionsTable.project_id transaction) ∧
            ProfileTransactionsTable.row_transaction Route row =
              ProfileTransactionsTable.TransactionName Route
                (ProfileTransactionsTable.name transaction)
        end.
Proof.
  intros Query Route route query org projects txs. cbv zeta.
  unfold ProfileTransactionsTable.transactions.
  split; [apply length_fmap|].
  intros i tx Hi.
  exists (ProfileTransactionsTable.transaction_row Query Route route query
            org projects tx).
  split; [by rewrite list_lookup_fmap, Hi|].
  unfold ProfileTransactionsTable.transaction_row.
  destruct (List.find _ projects) as [project|] eqn:E; simpl;
    (split; [reflexivity|]); (split; [reflexivity|]).
  - apply find_some in E as [Hin Heq].
    split; [by apply list_elem_of_In|]. split; [|reflexivity].
    by apply String.eqb_eq.
  - split; [|reflexivity]. intros project Hin.
    apply list_elem_of_In in Hin.
    apply (find_none _ _ E) in Hin. by apply String.eqb_neq.
Qed.

Lemma transactions_rows_witness :
  [checkout] !! 0%nat = Some checkout ∧
  ∃ row,
    ProfileTransactionsTable.transactions unit string summary_route ()
      "sentry" [backend] [checkout] !! 0%nat = Some row ∧
    ProfileTransactionsTable.row_transactionName string row = "/checkout" ∧
    ProfileTransactionsTable.row_project string row = Some backend.
Proof.
  assert ([checkout] !! 0%nat = Some checkout) as H by reflexivity.
  split; [exact H|].
  destruct (proj2 (transactions_rows unit string summary_route ()
                     "sentry" [backend] [checkout]) 0%nat checkout H)
    as (row & Hrow & Hname & _).
  exists row. split; [exact Hrow|]. split; [exact Hname|].
  injection Hrow as <-. reflexivity.
Defined.

(** X17.  A cell of the transactions table is rendered in a
    [NumberContainer] exactly when its column is one of
    [RIGHT_ALIGNED_COLUMNS]; the right aligned columns and the columns
    the table shows are all sortable, and each shown column has a
    definition in [COLUMNS]. *)
Theorem transaction_number_cells_are_right_aligned :
  (∀ (Route : Type) (column : string)
     (dataRow : ProfileTransactionsTable.TableDataRow Route),
     ProfileTransactionsTable.is_NumberContainer
       (ProfileTransactionsTable.ProfilingTransactionsTableCell Route column
          dataRow) = true ↔
     column ∈ ProfileTransactionsTable.RIGHT_ALIGNED_COLUMNS) ∧
  ProfileTransactionsTable.RIGHT_ALIGNED_COLUMNS
    ⊆ ProfileTransactionsTable.SORTABLE_COLUMNS ∧
  Forall (λ column,
            column ∈ ProfileTransactionsTable.SORTABLE_COLUMNS ∧
            column ∈ ProfileTransactionsTable.COLUMNS_keys)
         ProfileTransactionsTable.COLUMN_ORDER.
Proof.
  split; [|split; decide_closed].
  intros Route column dataRow.
  unfold ProfileTransactionsTable.ProfilingTransactionsTableCell,
    ProfileTransactionsTable.RIGHT_ALIGNED_COLUMNS.
  rewrite elem_of_list_to_set.
  repeat match goal with
         | |- context [String.eqb column ?key] =>
             destruct (String.eqb_spec column key) as [->|?];
             [try destruct (ProfileTransactionsTable.row_project _ _);
              split; intros E;
              first [ reflexivity
                    | decide_closed
                    | exfalso; vm_compute in E; discriminate
                    | exfalso; revert E; apply (bool_decide_eq_false_1 _);
                      vm_compute; reflexivity ]|]
         end.
  simpl. split; [intros [=]|]. intros E.
  repeat (apply elem_of_cons in E as [->|E]; [done|]).
  by apply elem_of_nil in E.
Qed.

(** ** The tags and screenshots of an event *)

Section EventFacts.
Import EventTagsAndScreenshots.

Lemma nonempty_length {A : Type} (l : list A) :
  nonempty l = true ↔ (0 < length l)%nat.
Proof. unfold nonempty. destruct l; simpl; split; (done || lia). Qed.

(** What is rendered when the component does not return [null]. *)
Lemma rendered_inv (props : Props) (focus : nat) (r : Rendered) :
  EventTagsAndScreenshots props focus = Some r →
  (showScreenshot props = true ∨ showTags props = true) ∧
  wrapper_showScreenshot r = showScreenshot props ∧
  wrapper_showTags r = showTags props ∧
  tags_list r = showTags props ∧
  tags_highlight r = hasEventContext props ∧
  vertical_divider r =
    showScreenshot props && (showTags props || hasEventContext props) ∧
  screenshot_section r =
    (if showScreenshot props then
       Some
         {| title :=
              if Nat.ltb 1 (length (screenshots props))
              then CurrentOfTotal (focus + 1) (length (screenshots props))
              else Screenshot_title;
            screenshot := screenshots props !! focus;
            icons :=
              if Nat.ltb 1 (length (screenshots props)) then
                Some (imap (λ index s,
                              (index, attachment_name s,
                               Nat.eqb focus index))
                           (screenshots props))
              else None |}
     else None).
Proof.
  unfold EventTagsAndScreenshots, showScreenshot, showTags.
  destruct (nonempty (tags props)), (hasContext props), (isShare props),
    (nonempty (screenshots props)); simpl; intros [= <-]; simpl;
    repeat split; auto.
Qed.
End EventFacts.

(** X18.  The component returns [null] exactly when there is nothing to
    show, neither the screenshot section nor the tags; what it shows does
    not depend on the screenshot in focus.  Otherwise it renders the
    screenshot section iff the event is not shared and has a screenshot,
    and the tags iff the event has tags or a context. *)
Theorem renders_null_iff_nothing_to_show :
  ∀ (props : EventTagsAndScreenshots.Props) (screenshotInFocus : nat),
    (EventTagsAndScreenshots.EventTagsAndScreenshots props screenshotInFocus =
       None ↔
     EventTagsAndScreenshots.showScreenshot props = false ∧
     EventTagsAndScreenshots.showTags props = false) ∧
    (∀ r,
       EventTagsAndScreenshots.EventTagsAndScreenshots props
         screenshotInFocus = Some r →
       (is_Some (EventTagsAndScreenshots.screenshot_section r) ↔
        EventTagsAndScreenshots.isShare props = false ∧
        (0 < length (EventTagsAndScreenshots.screenshots props))%nat) ∧
       (EventTagsAndScreenshots.tags_list r = true ↔
        (0 < length (EventTagsAndScreenshots.tags props))%nat ∨
        EventTagsAndScreenshots.hasContext props = true) ∧
       (is_Some (EventTagsAndScreenshots.screenshot_section r) ∨
        EventTagsAndScreenshots.tags_list r = true)).
Proof.
  intros props focus. split.
  - unfold EventTagsAndScreenshots.EventTagsAndScreenshots,
      EventTagsAndScreenshots.showScreenshot,
      EventTagsAndScreenshots.showTags.
    destruct (EventTagsAndScreenshots.nonempty
                (EventTagsAndScreenshots.tags props)),
      (EventTagsAndScreenshots.hasContext props),
      (EventTagsAndScreenshots.isShare props),
      (EventTagsAndScreenshots.nonempty
         (EventTagsAndScreenshots.screenshots props)); simpl;
      split; (done || intros [? ?]; done).
  - intros r Hr.
    destruct (rendered_inv props focus r Hr)
      as (Hshow & _ & _ & Htags & _ & _ & Hsec).
    rewrite Hsec, Htags.
    unfold EventTagsAndScreenshots.showScreenshot,
      EventTagsAndScreenshots.showTags in *.
    rewrite <- !nonempty_length.
    destruct (EventTagsAndScreenshots.nonempty
                (EventTagsAndScreenshots.tags props)),
      (EventTagsAndScreenshots.hasContext props),
      (EventTagsAndScreenshots.isShare props),
      (EventTagsAndScreenshots.nonempty
         (EventTagsAndScreenshots.screenshots props)); simpl in *;
      (split; [|split]);
      try (split; [intros [? [=]] || intros ?|intros ?]);
      intuition (eauto || congruence).
Qed.

Lemma renders_null_iff_nothing_to_show_witness :
  ∃ r,
    EventTagsAndScreenshots.EventTagsAndScreenshots crash_props 0 = Some r ∧
    (is_Some (EventTagsAndScreenshots.screenshot_section r) ∨
     EventTagsAndScreenshots.tags_list r = true).
Proof.
  eexists. split; [reflexivity|].
  exact (proj2 (proj2 (proj2 (renders_null_iff_nothing_to_show crash_props 0)
                         _ eq_refl))).
Defined.

(** X19.  Whenever the component renders, the vertical divider is shown
    exactly when the wrapper lays out three columns, that is when both the
    screenshot section and the tags are shown; and the highlighted context
    is only shown together with the tags. *)
Theorem divider_iff_three_columns :
  ∀ (props : EventTagsAndScreenshots.Props) (screenshotInFocus : nat)
    (r : EventTagsAndScreenshots.Rendered),
    EventTagsAndScreenshots.EventTagsAndScreenshots props screenshotInFocus =
      Some r →
    EventTagsAndScreenshots.vertical_divider r =
      EventTagsAndScreenshots.three_columns r ∧
    (EventTagsAndScreenshots.vertical_divider r = true ↔
     is_Some (EventTagsAndScreenshots.screenshot_section r) ∧
     EventTagsAndScreenshots.tags_list r = true) ∧
    (EventTagsAndScreenshots.tags_highlight r = true →
     EventTagsAndScreenshots.tags_list r = true).
Proof.
  intros props focus r Hr.
  destruct (rendered_inv props focus r Hr)
    as (_ & Hws & Hwt & Htags & Hhigh & Hdiv & Hsec).
  unfold EventTagsAndScreenshots.three_columns.
  rewrite Hws, Hwt, Htags, Hhigh, Hdiv, Hsec.
  unfold EventTagsAndScreenshots.hasEventContext,
    EventTagsAndScreenshots.showTags.
  destruct (EventTagsAndScreenshots.showScreenshot props),
    (EventTagsAndScreenshots.nonempty (EventTagsAndScreenshots.tags props)),
    (EventTagsAndScreenshots.hasContext props),
    (EventTagsAndScreenshots.contexts_empty props); simpl;
    (split; [reflexivity|]); (split; [|done]);
    split; (done || intros [[? [=]] ?] || intros [? ?] || intros ?); eauto.
Qed.

Lemma divider_iff_three_columns_witness :
  ∃ r,
    EventTagsAndScreenshots.EventTagsAndScreenshots crash_props 0 = Some r ∧
    EventTagsAndScreenshots.vertical_divider r =
      EventTagsAndScreenshots.three_columns r.
Proof.
  eexists. split; [reflexivity|].
  exact (proj1 (divider_iff_three_columns crash_props 0 _ eq_refl)).
Defined.

(** X20.  The screenshot section is never rendered for a shared event.
    The screenshot it shows is the attachment in focus among those named
    in [SCREENSHOT_NAMES]: it is one of the attachments of the event and
    has such a name.  With the initial focus 0 there always is one; in
    general there is one iff the focus is below the number of
    screenshots, so a focus left behind by a removed screenshot renders
    the section with no screenshot. *)
Theorem screenshot_in_focus :
  ∀ (props : EventTagsAndScreenshots.Props) (screenshotInFocus : nat)
    (r : EventTagsAndScreenshots.Rendered)
    (section : EventTagsAndScreenshots.ScreenshotSection),
    EventTagsAndScreenshots.EventTagsAndScreenshots props screenshotInFocus =
      Some r →
    EventTagsAndScreenshots.screenshot_section r = Some section →
    EventTagsAndScreenshots.isShare props = false ∧
    (∀ a, EventTagsAndScreenshots.screenshot section = Some a →
          a ∈ EventTagsAndScreenshots.attachments props ∧
          EventTagsAndScreenshots.attachment_name a
            ∈ EventTagsAndScreenshots.SCREENSHOT_NAMES) ∧
    (is_Some (EventTagsAndScreenshots.screenshot section) ↔
     (screenshotInFocus
      < length (EventTagsAndScreenshots.screenshots props))%nat) ∧
    (screenshotInFocus = 0%nat →
     is_Some (EventTagsAndScreenshots.screenshot section)).
Proof.
  intros props focus r section Hr Hsection.
  destruct (rendered_inv props focus r Hr) as (_ & _ & _ & _ & _ & _ & Hsec).
  rewrite Hsec in Hsection.
  destruct (EventTagsAndScreenshots.showScreenshot props) eqn:Hshow;
    [|discriminate].
  injection Hsection as <-. simpl.
  unfold EventTagsAndScreenshots.showScreenshot in Hshow.
  apply andb_true_iff in Hshow as [Hshare Hne].
  apply nonempty_length in Hne.
  split; [by destruct (EventTagsAndScreenshots.isShare props)|].
  split; [|split].
  - intros a Ha. apply list_elem_of_lookup_2 in Ha.
    unfold EventTagsAndScreenshots.screenshots in Ha.
    apply list_elem_of_In, filter_In in Ha as [Hin Hname].
    split; [by apply list_elem_of_In|].
    by apply bool_decide_eq_true in Hname.
  - apply lookup_lt_is_Some.
  - intros ->. by apply lookup_lt_is_Some.
Qed.

Lemma screenshot_in_focus_witness :
  ∃ r section,
    EventTagsAndScreenshots.EventTagsAndScreenshots crash_props 1 = Some r ∧
    EventTagsAndScreenshots.screenshot_section r = Some section ∧
    EventTagsAndScreenshots.isShare crash_props = false ∧
    (is_Some (EventTagsAndScreenshots.screenshot section) ↔
     (1 < length (EventTagsAndScreenshots.screenshots crash_props))%nat).
Proof.
  eexists. eexists. split; [reflexivity|]. split; [reflexivity|].
  pose proof (screenshot_in_focus crash_props 1 _ _ eq_refl eq_refl) as H.
  exact (conj (proj1 H) (proj1 (proj2 (proj2 H)))).
Defined.

(** X21.  The icons and the counting title are rendered iff there is more
    than one screenshot.  There is then one icon per screenshot, the
    title counts the focus from one out of their number, an icon is in
    focus iff its index is the focus, and putting the focus on an icon
    makes the component show the screenshot the icon names. *)
Theorem icons_select_screenshots :
  ∀ (props : EventTagsAndScreenshots.Props) (screenshotInFocus : nat)
    (r : EventTagsAndScreenshots.Rendered)
    (section : EventTagsAndScreenshots.ScreenshotSection),
    EventTagsAndScreenshots.EventTagsAndScreenshots props screenshotInFocus =
      Some r →
    EventTagsAndScreenshots.screenshot_section r = Some section →
    (is_Some (EventTagsAndScreenshots.icons section) ↔
     (1 < length (EventTagsAndScreenshots.screenshots props))%nat) ∧
    (EventTagsAndScreenshots.title section =
       EventTagsAndScreenshots.Screenshot_title ↔
     (length (EventTagsAndScreenshots.screenshots props) ≤ 1)%nat) ∧
    (∀ l, EventTagsAndScreenshots.icons section = Some l →
       length l = length (EventTagsAndScreenshots.screenshots props) ∧
       EventTagsAndScreenshots.title section =
         EventTagsAndScreenshots.CurrentOfTotal (screenshotInFocus + 1)
           (length l) ∧
       ∀ (index : nat) (name : string) (inFocus : bool),
         (index, name, inFocus) ∈ l →
         (inFocus = true ↔ index = screenshotInFocus) ∧
         ∃ r' section' a,
           EventTagsAndScreenshots.EventTagsAndScreenshots props index =
             Some r' ∧
           EventTagsAndScreenshots.screenshot_section r' = Some section' ∧
           EventTagsAndScreenshots.screenshot section' = Some a ∧
           EventTagsAndScreenshots.attachment_name a = name).
Proof.
  intros props focus r section Hr Hsection.
  destruct (rendered_inv props focus r Hr) as (_ & _ & _ & _ & _ & _ & Hsec).
  rewrite Hsec in Hsection.
  destruct (EventTagsAndScreenshots.showScreenshot props) eqn:Hshow;
    [|discriminate].
  injection Hsection as <-. simpl.
  set (shots := EventTagsAndScreenshots.screenshots props) in *.
  destruct (Nat.ltb_spec 1 (length shots)) as [Hmany|Hfew].
  - split; [split; [done|by eexists]|]. split; [split; [done|lia]|].
    intros l [= <-]. rewrite length_imap. split; [done|]. split; [done|].
    intros index name inFocus Hin.
    apply list_elem_of_lookup in Hin as [i Hi].
    rewrite list_lookup_imap in Hi.
    destruct (shots !! i) as [a|] eqn:Ha; [|discriminate].
    injection Hi as <- <- <-. split.
    + rewrite Nat.eqb_eq. split; congruence.
    + destruct (EventTagsAndScreenshots.EventTagsAndScreenshots props i)
        as [r'|] eqn:Hr'.
      * destruct (rendered_inv props i r' Hr')
          as (_ & _ & _ & _ & _ & _ & Hsec').
        rewrite Hshow in Hsec'.
        eexists r', _, a. split; [done|]. split; [exact Hsec'|].
        simpl. by fold shots.
      * unfold EventTagsAndScreenshots.EventTagsAndScreenshots in Hr'.
        unfold EventTagsAndScreenshots.showScreenshot in Hshow.
        subst shots.
        destruct (EventTagsAndScreenshots.isShare props),
          (EventTagsAndScreenshots.nonempty
             (EventTagsAndScreenshots.screenshots props)); simpl in *;
          try discriminate.
        rewrite !andb_false_r in Hr'. simpl in Hr'. discriminate.
  - split; [split; [intros [? [=]]|lia]|]. split; [done|]. intros l [=].
Qed.

Lemma icons_select_screenshots_witness :
  ∃ r section,
    EventTagsAndScreenshots.EventTagsAndScreenshots crash_props 0 = Some r ∧
    EventTagsAndScreenshots.screenshot_section r = Some section ∧
    (is_Some (EventTagsAndScreenshots.icons section) ↔
     (1 < length (EventTagsAndScreenshots.screenshots crash_props))%nat).
Proof.
  eexists. eexists. split; [reflexivity|]. split; [reflexivity|].
  exact (proj1 (icons_select_screenshots crash_props 0 _ _ eq_refl eq_refl)).
Defined.
